(** * Interactive selection prompts (src/prompts.ts): a shallow embedding

    The module lets a user pick or create a Firebase project, web app and
    hosting site.  The embedding follows the TypeScript source:

    - values that may be [undefined] are [option]s ([None] is [undefined]);
    - an expression that may raise evaluates to a [Completion];
    - the array a list promise resolves to is a mutable object shared by the
      search adapter and the final lookup: it is the [cell] of the flow state;
    - the backend (firebase-tools), the prompt renderer (inquirer) and the
      fuzzy filter (fuzzy) are collaborators outside the module: they are
      parameters of the development. *)

From Stdlib Require Import String Ascii List Bool Arith Lia.
Import ListNotations.
Open Scope string_scope.
Open Scope list_scope.

Set Implicit Arguments.

(** ** A minimal account of the JavaScript run time *)

Module JS.

Inductive Error : Type :=
| TypeError (msg : string)
| BackendError (msg : string).

(** The outcome of evaluating an expression, or of awaiting a promise. *)
Inductive Completion (A : Type) : Type :=
| Normal (a : A)
| Throw (e : Error).

Arguments Normal {A} a.
Arguments Throw {A} e.

Definition bind {A B} (c : Completion A) (k : A -> Completion B) : Completion B :=
  match c with
  | Normal a => k a
  | Throw e => Throw e
  end.

(** [Array.prototype.map] with a callback that may raise. *)
Fixpoint mapM {A B} (f : A -> Completion B) (l : list A) : Completion (list B) :=
  match l with
  | [] => Normal []
  | x :: xs => bind (f x) (fun y => bind (mapM f xs) (fun ys => Normal (y :: ys)))
  end.

(** [Array.prototype.find] with a predicate that may raise; [None] is the
    [undefined] that [find] returns when no element satisfies it. *)
Fixpoint findM {A} (p : A -> Completion bool) (l : list A) : Completion (option A) :=
  match l with
  | [] => Normal None
  | x :: xs => bind (p x) (fun b => if b then Normal (Some x) else findM p xs)
  end.

(** [Array.prototype.unshift] with one argument. *)
Definition unshift {A} (x : A) (arr : list A) : list A := x :: arr.

(** [Array.prototype.pop]: the last element, [undefined] on an empty array. *)
Fixpoint pop {A} (arr : list A) : option A :=
  match arr with
  | [] => None
  | [x] => Some x
  | _ :: rest => pop rest
  end.

(** [String.prototype.split] with a one-character separator. *)
Fixpoint split (sep : ascii) (s : string) : list string :=
  match s with
  | EmptyString => [EmptyString]
  | String c rest =>
      if Ascii.eqb c sep then EmptyString :: split sep rest
      else match split sep rest with
           | [] => [String c EmptyString]
           | seg :: segs => String c seg :: segs
           end
  end.

(** Truthiness of a value of type [string | undefined]. *)
Definition truthy (v : option string) : bool :=
  match v with
  | None => false
  | Some s => negb (s =? "")
  end.

(** [===] on values of type [string | undefined]. *)
Definition strict_eq (a b : option string) : bool :=
  match a, b with
  | None, None => true
  | Some x, Some y => x =? y
  | _, _ => false
  end.

(** [v.split(sep)]: a method call on [undefined] raises. *)
Definition call_split (v : option string) (sep : ascii) : Completion (list string) :=
  match v with
  | None => Throw (TypeError "Cannot read properties of undefined (reading 'split')")
  | Some s => Normal (split sep s)
  end.

End JS.

Import JS.

Notation "x <- c ;; k" := (JS.bind c (fun x => k))
  (at level 61, c at next level, right associativity).

(** ** Data model *)

(** The records of firebase-tools, with the fields this module reads.  The
    create-new record of the app and site adapters is cast from an object
    literal that lacks the other fields, and the stub site sets [appId] to
    [undefined]: those fields are optional here. *)

Record FirebaseProject : Type := {
  projectId : string;
  displayName : string
}.

Record FirebaseApp : Type := {
  appId : option string;
  appDisplayName : string
}.

Record FirebaseHostingSite : Type := {
  name : option string;
  defaultUrl : string;
  type : option string;
  siteAppId : option string
}.

Definition NEW_OPTION : string := "(~~new~~)".
Definition DEFAULT_SITE_TYPE : string := "DEFAULT_SITE".

Definition slash : ascii := "/"%char.

(** [app.appId], a property read on a possibly undefined receiver. *)
Definition read_appId (app : option FirebaseApp) : Completion (option string) :=
  match app with
  | None => Throw (TypeError "Cannot read properties of undefined (reading 'appId')")
  | Some a => Normal (appId a)
  end.

(** [app?.appId] *)
Definition chain_appId (app : option FirebaseApp) : option string :=
  match app with
  | None => None
  | Some a => appId a
  end.

(** [(app?: FirebaseApp) => app?.appId && app.appId.split('/').pop()] *)
Definition shortAppId (app : option FirebaseApp) : Completion (option string) :=
  let guard := chain_appId app in
  if truthy guard then
    v <- read_appId app ;;
    segs <- call_split v slash ;;
    Normal (pop segs)
  else Normal guard.

Definition read_name (site : option FirebaseHostingSite) : Completion (option string) :=
  match site with
  | None => Throw (TypeError "Cannot read properties of undefined (reading 'name')")
  | Some s => Normal (name s)
  end.

Definition chain_name (site : option FirebaseHostingSite) : option string :=
  match site with
  | None => None
  | Some s => name s
  end.

(** [(site?: FirebaseHostingSite) => site?.name && site.name.split('/').pop()] *)
Definition shortSiteName (site : option FirebaseHostingSite) : Completion (option string) :=
  let guard := chain_name site in
  if truthy guard then
    v <- read_name site ;;
    segs <- call_split v slash ;;
    Normal (pop segs)
  else Normal guard.

(** ** The fuzzy filter and its results *)

(** [fuzzy.FilterResult<A>]: the wrapper the filter builds around a match. *)
Record FilterResult (A : Type) : Type := {
  rendered : string;
  score : nat;
  index : nat;
  original : A
}.

(** An element of the array [fuzzy.filter] returns, of the union type
    [A | fuzzy.FilterResult<A>]. *)
Inductive FuzzyElem (A : Type) : Type :=
| Raw (a : A)
| Wrapper (r : FilterResult A).

Arguments Raw {A} a.
Arguments Wrapper {A} r.

(** [(elem as { original: A }).original]: the record types declare no field
    of that name, so the read yields [undefined] on a raw record. *)
Definition read_original {A} (elem : FuzzyElem A) : option A :=
  match elem with
  | Raw _ => None
  | Wrapper r => Some (original r)
  end.

Definition is_undefined {A} (v : option A) : bool :=
  match v with
  | None => true
  | Some _ => false
  end.

Definition isProject (elem : FuzzyElem FirebaseProject) : bool :=
  is_undefined (read_original elem).

Definition isApp (elem : FuzzyElem FirebaseApp) : bool :=
  is_undefined (read_original elem).

Definition isSite (elem : FuzzyElem FirebaseHostingSite) : bool :=
  is_undefined (read_original elem).

(** A guard that answers true narrows the element to the record itself. *)
Definition narrow {A} (elem : FuzzyElem A) : is_undefined (read_original elem) = true -> A :=
  match elem with
  | Raw a => fun _ => a
  | Wrapper r => fun H => match Bool.diff_false_true H with end
  end.

(** [elem.original], where the guard has answered false. *)
Definition unwrap {A} (elem : FuzzyElem A) : is_undefined (read_original elem) = false -> A :=
  match elem with
  | Raw a => fun H => match Bool.diff_true_false H with end
  | Wrapper r => fun _ => original r
  end.

(** The [if (isProject(result)) { original = result; } else { original =
    result.original; }] of [searchProjects], and its two siblings. *)
Definition originalProject (result : FuzzyElem FirebaseProject) : FirebaseProject :=
  (if isProject result as b return (isProject result = b -> FirebaseProject)
   then narrow result else unwrap result) eq_refl.

Definition originalApp (result : FuzzyElem FirebaseApp) : FirebaseApp :=
  (if isApp result as b return (isApp result = b -> FirebaseApp)
   then narrow result else unwrap result) eq_refl.

Definition originalSite (result : FuzzyElem FirebaseHostingSite) : FirebaseHostingSite :=
  (if isSite result as b return (isSite result = b -> FirebaseHostingSite)
   then narrow result else unwrap result) eq_refl.

(** The candidate record an element of a filter result stands for. *)
Definition normalize {A} (result : FuzzyElem A) : A :=
  match result with
  | Raw a => a
  | Wrapper r => original r
  end.

(** The third-party filter [fuzzy.filter(pattern, arr, { extract })]. *)
Class FuzzyLib : Type := {
  fuzzy_filter : forall A : Type, string -> list A -> (A -> string) -> list (FuzzyElem A)
}.

Arguments fuzzy_filter {FuzzyLib} [A] pattern arr extract.

(** Modelled from the spec: the package fuzzy is a dependency that is not part
    of the module.  The glossary describes fuzzy filtering as selecting the
    elements whose text matches the query as a subsequence, every candidate in
    the original order for an empty query, and section 4.1 gives the shape of
    a wrapped result. *)
Fixpoint subsequence (pattern text : string) : bool :=
  match pattern, text with
  | EmptyString, _ => true
  | String _ _, EmptyString => false
  | String p ps, String t ts =>
      if Ascii.eqb p t then subsequence ps ts else subsequence pattern ts
  end.

Fixpoint subsequence_filter_from {A} (idx : nat) (pattern : string) (arr : list A)
    (extract : A -> string) : list (FuzzyElem A) :=
  match arr with
  | [] => []
  | el :: rest =>
      let tail := subsequence_filter_from (S idx) pattern rest extract in
      if subsequence pattern (extract el)
      then Wrapper {| rendered := extract el; score := 0; index := idx; original := el |} :: tail
      else tail
  end.

Definition subsequence_fuzzy : FuzzyLib :=
  {| fuzzy_filter := fun A pattern arr extract => subsequence_filter_from 0 pattern arr extract |}.

(** ** Choices and the search adapters *)

(** The [{ name, title, value }] objects handed to the renderer. *)
Record Choice : Type := {
  c_name : string;
  c_title : string;
  c_value : option string
}.

(** A list promise.  A fulfilled one resolves to the array held in the flow's
    cell: every [then] and [await] on it sees that same array object. *)
Inductive Promise : Type :=
| Fulfilled
| Rejected (e : Error).

(** A query handler [(_, input) => Promise<Choice[]>], as a function of the
    array the promise resolved to, returning the array as it leaves it. *)
Definition Handler (R : Type) : Type :=
  string -> list R -> Completion (list Choice) * list R.

Definition newProject : FirebaseProject :=
  {| projectId := NEW_OPTION; displayName := "[CREATE NEW PROJECT]" |}.

Definition newApp : FirebaseApp :=
  {| appId := Some NEW_OPTION; appDisplayName := "[CREATE NEW APP]" |}.

Definition newSite : FirebaseHostingSite :=
  {| name := Some NEW_OPTION; defaultUrl := "[CREATE NEW SITE]";
     type := None; siteAppId := None |}.

Definition extractProject (el : FirebaseProject) : string :=
  projectId el ++ " " ++ displayName el.

Definition projectChoice (result : FuzzyElem FirebaseProject) : Choice :=
  let original := originalProject result in
  {| c_name := displayName original;
     c_title := displayName original;
     c_value := Some (projectId original) |}.

Definition appChoice (result : FuzzyElem FirebaseApp) : Completion Choice :=
  let original := originalApp result in
  v <- shortAppId (Some original) ;;
  Normal {| c_name := appDisplayName original;
            c_title := appDisplayName original;
            c_value := v |}.

Definition siteChoice (result : FuzzyElem FirebaseHostingSite) : Completion Choice :=
  let original := originalSite result in
  v <- shortSiteName (Some original) ;;
  Normal {| c_name := defaultUrl original;
            c_title := defaultUrl original;
            c_value := v |}.

Section Adapters.

Context {F : FuzzyLib}.

Definition searchProjects (promise : Promise) : Handler FirebaseProject :=
  fun input arr =>
    match promise with
    | Rejected e => (Throw e, arr)
    | Fulfilled =>
        let projects := unshift newProject arr in
        (Normal (map projectChoice (fuzzy_filter input projects extractProject)),
         projects)
    end.

Definition searchApps (promise : Promise) : Handler FirebaseApp :=
  fun input arr =>
    match promise with
    | Rejected e => (Throw e, arr)
    | Fulfilled =>
        let apps := unshift newApp arr in
        (mapM appChoice (fuzzy_filter input apps appDisplayName), apps)
    end.

Definition searchSites (promise : Promise) : Handler FirebaseHostingSite :=
  fun input arr =>
    match promise with
    | Rejected e => (Throw e, arr)
    | Fulfilled =>
        let sites := unshift newSite arr in
        (mapM siteChoice (fuzzy_filter input sites defaultUrl), sites)
    end.

End Adapters.

(** ** Collaborators: backend and prompt renderer *)

(** [options: {}]: the module reads [account] and spreads the rest. *)
Record Options : Type := {
  account : option string
}.

Record Account : Type := {
  email : string
}.

(** An element of [login.list()], and the result of [login.add()]. *)
Record UserEntry : Type := {
  user : Account
}.

(** A value the account prompt may yield: the sentinel string or an account. *)
Inductive UserValue : Type :=
| UString (s : string)
| UAccount (a : Account).

Record UserChoice : Type := {
  u_name : string;
  u_value : UserValue
}.

(** The calls made on firebase-tools, with their arguments. *)
Inductive Call : Type :=
| LoginList
| Login (options : option Options)
| LoginAdd
| ProjectsList (options : Options)
| ProjectsCreate (id : string) (acct : option string) (displayName : string)
| AppsList (platform : string) (options : Options) (project : string)
| AppsCreate (platform displayName : string) (options : Options) (project : string)
| SitesList (options : Options) (project : string)
| SitesCreate (subdomain : string) (options : Options) (project : string).

(** What the backend answers to each call; a rejected promise is a [Throw]. *)
Class Backend : Type := {
  login_list : Completion (option (list UserEntry));
  login : option Options -> Completion Account;
  login_add : Completion UserEntry;
  projects_list : Options -> Completion (list FirebaseProject);
  projects_create : string -> option string -> string -> Completion FirebaseProject;
  apps_list : string -> Options -> string -> Completion (list FirebaseApp);
  apps_create : string -> string -> Options -> string -> Completion FirebaseApp;
  sites_list : Options -> string -> Completion (list FirebaseHostingSite);
  sites_create : string -> Options -> string -> Completion FirebaseHostingSite
}.

(** What the user does at each prompt, by question name: the query texts the
    autocomplete prompt hands to its source one after the other, the value
    selected given the default and the choice lists shown, the text typed at
    an input prompt given its default, and the entry picked from a list. *)
Class Renderer : Type := {
  keystrokes : string -> list string;
  select : string -> option string -> list (list Choice) -> option string;
  input : string -> option string -> string;
  pick : string -> list UserChoice -> option UserValue -> UserValue
}.

(** ** Flows: state and error passing *)

(** The state of a resource flow: the array its list promise resolved to and
    the backend calls made so far, oldest first. *)
Record FlowState (R : Type) : Type := {
  cell : list R;
  trace : list Call
}.

Class Traced (S : Type) : Type := {
  record : Call -> S -> S
}.

#[export] Instance traced_calls : Traced (list Call) :=
  {| record := fun c t => t ++ [c] |}.

#[export] Instance traced_flow (R : Type) : Traced (FlowState R) :=
  {| record := fun c st => {| cell := cell st; trace := trace st ++ [c] |} |}.

Definition M (S A : Type) : Type := S -> Completion A * S.

Definition ret {S A} (a : A) : M S A := fun st => (Normal a, st).

Definition mbind {S A B} (m : M S A) (k : A -> M S B) : M S B :=
  fun st =>
    match m st with
    | (Normal a, st') => k a st'
    | (Throw e, st') => (Throw e, st')
    end.

Notation "x <~ m ;; k" := (mbind m (fun x => k))
  (at level 61, m at next level, right associativity).

(** Awaiting the promise a backend call returns. *)
Definition call {S} {T : Traced S} {A} (c : Call) (answer : Completion A) : M S A :=
  fun st => (answer, record c st).

(** Evaluating an expression that may raise. *)
Definition eval {S A} (c : Completion A) : M S A := fun st => (c, st).

(** Starting a list call without awaiting it: the call is made, and the
    promise, once fulfilled, holds the array in the cell. *)
Definition fetch {R} (c : Call) (answer : Completion (list R)) : M (FlowState R) Promise :=
  fun st =>
    match answer with
    | Normal arr => (Normal Fulfilled, {| cell := arr; trace := trace st ++ [c] |})
    | Throw e => (Normal (Rejected e), {| cell := cell st; trace := trace st ++ [c] |})
    end.

(** [await promise] *)
Definition await {R} (promise : Promise) : M (FlowState R) (list R) :=
  fun st =>
    match promise with
    | Fulfilled => (Normal (cell st), st)
    | Rejected e => (Throw e, st)
    end.

(** One invocation of a query handler on the shared array. *)
Definition invoke {R} (source : Handler R) (query : string) : M (FlowState R) (list Choice) :=
  fun st =>
    let (choices, arr) := source query (cell st) in
    (choices, {| cell := arr; trace := trace st |}).

Fixpoint feed {R} (source : Handler R) (queries : list string)
    : M (FlowState R) (list (list Choice)) :=
  match queries with
  | [] => ret []
  | q :: qs =>
      shown <~ invoke source q ;;
      rest <~ feed source qs ;;
      ret (shown :: rest)
  end.

Section Flows.

Context {F : FuzzyLib} {B : Backend} {U : Renderer}.

(** [autocomplete]: the renderer evaluates the default, calls [source] once
    per query text and yields the selected value. *)
Definition autocomplete {R} (qname : string) (source : Handler R)
    (default : M (FlowState R) (option string)) : M (FlowState R) (option string) :=
  d <~ default ;;
  shown <~ feed source (keystrokes qname) ;;
  ret (select qname d shown).

Definition userPrompt (options : Options) : M (list Call) UserValue :=
  users <~ call LoginList login_list ;;
  if match users with
     | None => true
     | Some l => Nat.eqb (length l) 0
     end
  then
    _ <~ call (Login None) (login None) ;;
    user <~ call (Login (Some options)) (login (Some options)) ;;
    ret (UAccount user)
  else
    defaultUser <~ call (Login (Some options)) (login (Some options)) ;;
    let choices :=
      map (fun u => {| u_name := email (user u); u_value := UAccount (user u) |})
          (match users with Some l => l | None => [] end) in
    let newChoice :=
      {| u_name := "[Login in with another account]"; u_value := UString NEW_OPTION |} in
    let picked :=
      pick "user" ([newChoice] ++ choices)
        (option_map u_value
           (find (fun it => match u_value it with
                            | UAccount a => email a =? email defaultUser
                            | UString _ => false
                            end) choices)) in
    if match picked with
       | UString s => s =? NEW_OPTION
       | UAccount _ => false
       end
    then
      added <~ call LoginAdd login_add ;;
      ret (UAccount (user added))
    else ret picked.

Definition projectPrompt (defaultProject : option string) (options : Options)
    : M (FlowState FirebaseProject) (option FirebaseProject) :=
  projects <~ fetch (ProjectsList options) (projects_list options) ;;
  selected <~ autocomplete "projectId" (searchProjects projects) (ret defaultProject) ;;
  if strict_eq selected (Some NEW_OPTION) then
    let id := input "projectId" None in
    let displayName := input "displayName" (Some id) in
    created <~ call (ProjectsCreate id (account options) displayName)
                    (projects_create id (account options) displayName) ;;
    ret (Some created)
  else
    resolved <~ await projects ;;
    ret (find (fun it => strict_eq (Some (projectId it)) selected) resolved).

Definition appPrompt (parent : FirebaseProject) (defaultAppId : option string)
    (options : Options) : M (FlowState FirebaseApp) (option FirebaseApp) :=
  let project := projectId parent in
  apps <~ fetch (AppsList "web" options project) (apps_list "web" options project) ;;
  selected <~ autocomplete "appId" (searchApps apps) (ret defaultAppId) ;;
  if strict_eq selected (Some NEW_OPTION) then
    let displayName := input "displayName" None in
    created <~ call (AppsCreate "web" displayName options project)
                    (apps_create "web" displayName options project) ;;
    ret (Some created)
  else
    resolved <~ await apps ;;
    eval (findM (fun it => v <- shortAppId (Some it) ;; Normal (strict_eq v selected))
                resolved).

(** The [then] callback of [sitePrompt]: a project that reports no site gets
    a stub of its default site. *)
Definition sitesOrStub (project : string) (it_sites : list FirebaseHostingSite)
    : list FirebaseHostingSite :=
  if Nat.eqb (length it_sites) 0 then
    [ {| name := Some project;
         defaultUrl := "https://" ++ project ++ ".web.app";
         type := Some DEFAULT_SITE_TYPE;
         siteAppId := None |} ]
  else it_sites.

(** [const sites = firebaseTools.hosting.sites.list(...).then(...)] *)
Definition sitePromptSites (project : string) (options : Options)
    : M (FlowState FirebaseHostingSite) Promise :=
  fetch (SitesList options project)
        (it_sites <- sites_list options project ;; Normal (sitesOrStub project it_sites)).

Definition sitePrompt (parent : FirebaseProject) (options : Options)
    : M (FlowState FirebaseHostingSite) (option FirebaseHostingSite) :=
  let project := projectId parent in
  sites <~ sitePromptSites project options ;;
  selected <~ autocomplete "siteName" (searchSites sites)
                (it <~ await sites ;;
                 eval (shortSiteName
                         (find (fun it => strict_eq (type it) (Some DEFAULT_SITE_TYPE)) it))) ;;
  if strict_eq selected (Some NEW_OPTION) then
    let subdomain := input "subdomain" None in
    created <~ call (SitesCreate subdomain options project)
                    (sites_create subdomain options project) ;;
    ret (Some created)
  else
    resolved <~ await sites ;;
    eval (findM (fun it => v <- shortSiteName (Some it) ;; Normal (strict_eq v selected))
                resolved).

End Flows.

(** The state a flow starts in. *)
Definition start (R : Type) : FlowState R := {| cell := []; trace := [] |}.

(** ** Vocabulary of the statements *)

Fixpoint has_char (c : ascii) (s : string) : bool :=
  match s with
  | EmptyString => false
  | String d rest => Ascii.eqb d c || has_char c rest
  end.

(** [t] is what follows the last [sep] of [s], all of [s] when it has none. *)
Definition last_segment (sep : ascii) (s t : string) : Prop :=
  has_char sep t = false /\
  ((has_char sep s = false /\ t = s) \/ exists pre, s = (pre ++ String sep t)%string).

Definition is_list_call (c : Call) : bool :=
  match c with
  | ProjectsList _ | AppsList _ _ _ | SitesList _ _ => true
  | _ => false
  end.

(** The list calls made by the time a flow reaches a state. *)
Definition list_calls {R} (st : FlowState R) : list Call :=
  filter is_list_call (trace st).

(** A computation that makes no list call. *)
Definition no_list_call {R A} (m : M (FlowState R) A) : Prop :=
  forall st, list_calls (snd (m st)) = list_calls st.

(** The create-new choices of the three adapters. *)
Definition createProjectChoice : Choice :=
  {| c_name := "[CREATE NEW PROJECT]"; c_title := "[CREATE NEW PROJECT]";
     c_value := Some NEW_OPTION |}.

Definition createAppChoice : Choice :=
  {| c_name := "[CREATE NEW APP]"; c_title := "[CREATE NEW APP]";
     c_value := Some NEW_OPTION |}.

Definition createSiteChoice : Choice :=
  {| c_name := "[CREATE NEW SITE]"; c_title := "[CREATE NEW SITE]";
     c_value := Some NEW_OPTION |}.

(** ** Sample collaborators, for running the flows on concrete inputs *)

(** A user who types the given query texts and then selects [selection];
    input prompts are answered with the name of the question. *)
Definition scripted (queries : list string) (selection : option string) : Renderer :=
  {| keystrokes := fun _ => queries;
     select := fun _ _ _ => selection;
     input := fun qname _ => qname;
     pick := fun _ _ default =>
       match default with
       | Some v => v
       | None => UString NEW_OPTION
       end |}.

(** A backend that holds the given records and accepts every request. *)
Definition serving (users : option (list UserEntry)) (projects : list FirebaseProject)
    (apps : list FirebaseApp) (sites : list FirebaseHostingSite) : Backend :=
  {| login_list := Normal users;
     login := fun o =>
       Normal {| email := match o with
                          | None => "first@example.com"
                          | Some _ => "second@example.com"
                          end |};
     login_add := Normal {| user := {| email := "added@example.com" |} |};
     projects_list := fun _ => Normal projects;
     projects_create := fun id _ d => Normal {| projectId := id; displayName := d |};
     apps_list := fun _ _ _ => Normal apps;
     apps_create := fun _ d _ project =>
       Normal {| appId := Some ("projects/" ++ project ++ "/apps/created")%string;
                 appDisplayName := d |};
     sites_list := fun _ _ => Normal sites;
     sites_create := fun subdomain _ project =>
       Normal {| name := Some ("projects/" ++ project ++ "/sites/" ++ subdomain)%string;
                 defaultUrl := "https://" ++ subdomain ++ ".web.app";
                 type := Some "USER_SITE";
                 siteAppId := None |} |}.

Definition noOptions : Options := {| account := None |}.

Definition p1 : FirebaseProject := {| projectId := "p1"; displayName := "P One" |}.

Definition app1 : FirebaseApp :=
  {| appId := Some "projects/p1/apps/abc"; appDisplayName := "Shop" |}.

Definition site1 : FirebaseHostingSite :=
  {| name := Some "projects/p1/sites/shop"; defaultUrl := "https://shop.web.app";
     type := Some "USER_SITE"; siteAppId := None |}.

(** Records whose short identifiers are [abcd] and [abc]: the first contains
    the second without being equal to it. *)
Definition projectAbcd : FirebaseProject := {| projectId := "abcd"; displayName := "Longer" |}.
Definition projectAbc : FirebaseProject := {| projectId := "abc"; displayName := "Exact" |}.

Definition appAbcd : FirebaseApp :=
  {| appId := Some "projects/p1/apps/abcd"; appDisplayName := "Longer" |}.
Definition appAbc : FirebaseApp :=
  {| appId := Some "projects/p1/apps/abc"; appDisplayName := "Exact" |}.

Definition siteAbcd : FirebaseHostingSite :=
  {| name := Some "projects/p1/sites/abcd"; defaultUrl := "https://abcd.web.app";
     type := Some "USER_SITE"; siteAppId := None |}.
Definition siteAbc : FirebaseHostingSite :=
  {| name := Some "projects/p1/sites/abc"; defaultUrl := "https://abc.web.app";
     type := Some DEFAULT_SITE_TYPE; siteAppId := None |}.

(** A user who types the given query texts and then accepts the default of
    the prompt. *)
Definition accepting (queries : list string) : Renderer :=
  {| keystrokes := fun _ => queries;
     select := fun _ default _ => default;
     input := fun qname _ => qname;
     pick := fun _ _ default =>
       match default with
       | Some v => v
       | None => UString NEW_OPTION
       end |}.

(** The value of the last choice of the last answer shown, the sentinel when
    nothing was shown. *)
Definition last_offered (shown : list (list Choice)) : option string :=
  match rev (concat shown) with
  | c :: _ => c_value c
  | [] => Some NEW_OPTION
  end.

(** A user who types the given query texts and then takes the last choice
    offered. *)
Definition taking_last (queries : list string) : Renderer :=
  {| keystrokes := fun _ => queries;
     select := fun _ _ shown => last_offered shown;
     input := fun qname _ => qname;
     pick := fun _ _ _ => UString NEW_OPTION |}.

(** A user who picks the given entry of the account list. *)
Definition picking (v : UserValue) : Renderer :=
  {| keystrokes := fun _ => [];
     select := fun _ default _ => default;
     input := fun qname _ => qname;
     pick := fun _ _ _ => v |}.

(** A backend whose list calls are rejected with the given error. *)
Definition unlisted (e : Error) : Backend :=
  {| login_list := Throw e;
     login := fun _ => Throw e;
     login_add := Throw e;
     projects_list := fun _ => Throw e;
     projects_create := fun id _ d => Normal {| projectId := id; displayName := d |};
     apps_list := fun _ _ _ => Throw e;
     apps_create := fun _ d _ _ => Normal {| appId := None; appDisplayName := d |};
     sites_list := fun _ _ => Throw e;
     sites_create := fun subdomain _ _ =>
       Normal {| name := Some subdomain; defaultUrl := subdomain;
                 type := None; siteAppId := None |} |}.

(** A backend that knows no account and rejects the bare login. *)
Definition locked (e : Error) : Backend :=
  {| login_list := Normal (Some []);
     login := fun _ => Throw e;
     login_add := Throw e;
     projects_list := fun _ => Normal [];
     projects_create := fun id _ d => Normal {| projectId := id; displayName := d |};
     apps_list := fun _ _ _ => Normal [];
     apps_create := fun _ d _ _ => Normal {| appId := None; appDisplayName := d |};
     sites_list := fun _ _ => Normal [];
     sites_create := fun subdomain _ _ =>
       Normal {| name := Some subdomain; defaultUrl := subdomain;
                 type := None; siteAppId := None |} |}.

Definition alice : UserEntry := {| user := {| email := "alice@example.com" |} |}.
Definition second : UserEntry := {| user := {| email := "second@example.com" |} |}.

(** * Properties *)

(** ** Strings: [split] and [pop] *)

Lemma pop_snoc {A} (l : list A) (x : A) : pop (l ++ [x]) = Some x.
Proof.
  induction l as [|y l IH]; simpl; [reflexivity|].
  destruct (l ++ [x]) eqn:E; [destruct l; discriminate | exact IH].
Qed.

Lemma split_last (sep : ascii) (s : string) :
  exists segs t,
    split sep s = segs ++ [t] /\ has_char sep t = false /\
    (segs = [] -> s = t) /\
    (segs <> [] -> exists pre, s = (pre ++ String sep t)%string).
Proof.
  induction s as [|c rest IH]; simpl.
  - exists [], EmptyString. repeat split; auto. intros H; now destruct H.
  - destruct IH as (segs & t & Hsplit & Hfree & Hnil & Hcons).
    destruct (Ascii.eqb c sep) eqn:Ec.
    + apply Ascii.eqb_eq in Ec; subst c.
      exists (EmptyString :: segs), t. rewrite Hsplit. repeat split; auto.
      * discriminate.
      * intros _. destruct segs as [|seg segs'].
        -- exists EmptyString. simpl. now rewrite (Hnil eq_refl).
        -- destruct Hcons as [pre Hpre]; [discriminate|].
           exists (String sep pre). simpl. now rewrite Hpre.
    + rewrite Hsplit. destruct segs as [|seg segs']; simpl.
      * exists [], (String c t). simpl. rewrite Ec, Hfree.
        repeat split; auto.
        -- intros _. now rewrite (Hnil eq_refl).
        -- intros H; now destruct H.
      * exists (String c seg :: segs'), t. repeat split; auto.
        -- discriminate.
        -- intros _. destruct Hcons as [pre Hpre]; [discriminate|].
           exists (String c pre). simpl. now rewrite Hpre.
Qed.

Lemma has_char_app_sep (sep : ascii) (pre t : string) :
  has_char sep (pre ++ String sep t)%string = true.
Proof.
  induction pre as [|c pre IH]; simpl.
  - now rewrite Ascii.eqb_refl.
  - rewrite IH. apply orb_true_r.
Qed.

Lemma pop_split_last_segment (sep : ascii) (s : string) :
  exists t, pop (split sep s) = Some t /\ last_segment sep s t.
Proof.
  destruct (split_last sep s) as (segs & t & Hsplit & Hfree & Hnil & Hcons).
  exists t. rewrite Hsplit, pop_snoc. split; [reflexivity|].
  split; [exact Hfree|].
  destruct segs as [|seg segs'].
  - left. rewrite (Hnil eq_refl). auto.
  - right. apply Hcons. discriminate.
Qed.

(** ** Short identifiers *)

Lemma shortAppId_complete (app : option FirebaseApp) :
  exists v, shortAppId app = Normal v.
Proof.
  destruct app as [[[s|] d]|]; unfold shortAppId; simpl; eauto.
  destruct (negb (s =? "")); simpl; eauto.
Qed.

Lemma shortSiteName_complete (site : option FirebaseHostingSite) :
  exists v, shortSiteName site = Normal v.
Proof.
  destruct site as [[[s|] u t a]|]; unfold shortSiteName; simpl; eauto.
  destruct (negb (s =? "")); simpl; eauto.
Qed.

(** C10.  [shortAppId] and [shortSiteName] never raise.  On an undefined
    argument and on a record without the field they return [undefined], on an
    empty field the empty string, both falsy; on a non-empty field they return
    what follows its last slash, the whole field when it has no slash. *)
Theorem short_ids_total_last_segment :
  (forall app, exists v, shortAppId app = Normal v) /\
  (forall site, exists v, shortSiteName site = Normal v) /\
  (shortAppId None = Normal None /\ shortSiteName None = Normal None) /\
  (forall d, shortAppId (Some {| appId := None; appDisplayName := d |}) = Normal None) /\
  (forall d, shortAppId (Some {| appId := Some ""; appDisplayName := d |}) = Normal (Some "")) /\
  (forall u t a,
     shortSiteName (Some {| name := None; defaultUrl := u; type := t; siteAppId := a |})
     = Normal None) /\
  (forall u t a,
     shortSiteName (Some {| name := Some ""; defaultUrl := u; type := t; siteAppId := a |})
     = Normal (Some "")) /\
  (truthy None = false /\ truthy (Some "") = false) /\
  (forall c s d, exists seg,
     shortAppId (Some {| appId := Some (String c s); appDisplayName := d |})
     = Normal (Some seg) /\ last_segment slash (String c s) seg) /\
  (forall c s u t a, exists seg,
     shortSiteName (Some {| name := Some (String c s); defaultUrl := u;
                            type := t; siteAppId := a |})
     = Normal (Some seg) /\ last_segment slash (String c s) seg).
Proof.
  split; [exact shortAppId_complete|].
  split; [exact shortSiteName_complete|].
  repeat split; try reflexivity.
  - intros c s d.
    destruct (pop_split_last_segment slash (String c s)) as (seg & Hpop & Hseg).
    exists seg. split; [|exact Hseg].
    unfold shortAppId. cbn [chain_appId appId truthy String.eqb negb read_appId JS.bind call_split].
    now rewrite Hpop.
  - intros c s u t a.
    destruct (pop_split_last_segment slash (String c s)) as (seg & Hpop & Hseg).
    exists seg. split; [|exact Hseg].
    unfold shortSiteName. cbn [chain_name name truthy String.eqb negb read_name JS.bind call_split].
    now rewrite Hpop.
Qed.

(** ** Result normalization *)

Lemma originalProject_normalize e : originalProject e = normalize e.
Proof. now destruct e. Qed.

Lemma originalApp_normalize e : originalApp e = normalize e.
Proof. now destruct e. Qed.

Lemma originalSite_normalize e : originalSite e = normalize e.
Proof. now destruct e. Qed.

(** C4.  An element of a filter result is taken for a wrapper exactly when
    reading its field [original] does not yield [undefined]: the guards
    [isProject], [isApp] and [isSite] answer false exactly then, and exactly
    on wrappers.  In both branches the normalization of the three adapters
    returns the candidate record: a raw record is returned as it is, and a
    wrapper yields the record it carries. *)
Theorem normalize_classifies_and_round_trips :
  (forall A (e : FuzzyElem A), (exists r, e = Wrapper r) <-> read_original e <> None) /\
  (forall e, isProject e = false <-> read_original e <> None) /\
  (forall e, isApp e = false <-> read_original e <> None) /\
  (forall e, isSite e = false <-> read_original e <> None) /\
  (forall r, originalProject (Raw r) = r) /\
  (forall r, originalApp (Raw r) = r) /\
  (forall r, originalSite (Raw r) = r) /\
  (forall text sc idx r,
     originalProject
       (Wrapper {| rendered := text; score := sc; index := idx; original := r |}) = r) /\
  (forall text sc idx r,
     originalApp
       (Wrapper {| rendered := text; score := sc; index := idx; original := r |}) = r) /\
  (forall text sc idx r,
     originalSite
       (Wrapper {| rendered := text; score := sc; index := idx; original := r |}) = r).
Proof.
  assert (Hguard : forall A (e : FuzzyElem A),
             is_undefined (read_original e) = false <-> read_original e <> None).
  { intros A e. destruct (read_original e); simpl; split; congruence. }
  split.
  { intros A e. destruct e as [a|r]; simpl; split.
    - intros [r Hr]. discriminate.
    - intros H. now destruct H.
    - discriminate.
    - intros _. now exists r. }
  split; [intros e; apply Hguard|].
  split; [intros e; apply Hguard|].
  split; [intros e; apply Hguard|].
  repeat split.
Qed.

(** ** The search adapters *)

Lemma mapM_complete {A B} (f : A -> Completion B) (l : list A) :
  (forall x, exists y, f x = Normal y) ->
  exists ys, mapM f l = Normal ys /\ Forall2 (fun x y => f x = Normal y) l ys.
Proof.
  intros Hf. induction l as [|x l (ys & Hys & Hall)]; simpl.
  - exists []. split; [reflexivity | constructor].
  - destruct (Hf x) as [y Hy]. exists (y :: ys).
    rewrite Hy, Hys. split; [reflexivity | now constructor].
Qed.

Lemma Forall2_map_left {A A' B} (g : A -> A') (P : A' -> B -> Prop) l ys :
  Forall2 (fun x y => P (g x) y) l ys -> Forall2 P (map g l) ys.
Proof. induction 1; simpl; constructor; auto. Qed.

Lemma appChoice_complete (e : FuzzyElem FirebaseApp) : exists c, appChoice e = Normal c.
Proof.
  unfold appChoice.
  destruct (shortAppId_complete (Some (originalApp e))) as [v ->]. simpl. eauto.
Qed.

Lemma siteChoice_complete (e : FuzzyElem FirebaseHostingSite) :
  exists c, siteChoice e = Normal c.
Proof.
  unfold siteChoice.
  destruct (shortSiteName_complete (Some (originalSite e))) as [v ->]. simpl. eauto.
Qed.

Lemma projectChoice_normalize e : projectChoice e = projectChoice (Raw (normalize e)).
Proof. now destruct e. Qed.

Lemma appChoice_normalize e : appChoice e = appChoice (Raw (normalize e)).
Proof. now destruct e. Qed.

Lemma siteChoice_normalize e : siteChoice e = siteChoice (Raw (normalize e)).
Proof. now destruct e. Qed.

(** What a handler of each kind returns in terms of the records the filter
    kept, and the array it leaves behind. *)
Lemma searchProjects_run {F : FuzzyLib} input arr :
  searchProjects Fulfilled input arr =
  (Normal (map (fun p => projectChoice (Raw p))
               (map normalize (fuzzy_filter input (newProject :: arr) extractProject))),
   newProject :: arr).
Proof.
  unfold searchProjects, unshift. rewrite map_map.
  f_equal. f_equal. apply map_ext. intros e. apply projectChoice_normalize.
Qed.

Lemma searchApps_run {F : FuzzyLib} input arr :
  exists choices,
    searchApps Fulfilled input arr = (Normal choices, newApp :: arr) /\
    Forall2 (fun a c => appChoice (Raw a) = Normal c)
            (map normalize (fuzzy_filter input (newApp :: arr) appDisplayName)) choices.
Proof.
  unfold searchApps, unshift.
  destruct (mapM_complete appChoice (fuzzy_filter input (newApp :: arr) appDisplayName)
              appChoice_complete) as (ys & -> & Hall).
  exists ys. split; [reflexivity|]. apply Forall2_map_left.
  eapply Forall2_impl; [|exact Hall]. intros e c H. now rewrite <- appChoice_normalize.
Qed.

Lemma searchSites_run {F : FuzzyLib} input arr :
  exists choices,
    searchSites Fulfilled input arr = (Normal choices, newSite :: arr) /\
    Forall2 (fun s c => siteChoice (Raw s) = Normal c)
            (map normalize (fuzzy_filter input (newSite :: arr) defaultUrl)) choices.
Proof.
  unfold searchSites, unshift.
  destruct (mapM_complete siteChoice (fuzzy_filter input (newSite :: arr) defaultUrl)
              siteChoice_complete) as (ys & -> & Hall).
  exists ys. split; [reflexivity|]. apply Forall2_map_left.
  eapply Forall2_impl; [|exact Hall]. intros e c H. now rewrite <- siteChoice_normalize.
Qed.

Lemma Forall2_In_left {A B} (P : A -> B -> Prop) l ys x :
  Forall2 P l ys -> In x l -> exists y, In y ys /\ P x y.
Proof.
  induction 1 as [|a b l ys Hab _ IH]; simpl; [now intros []|].
  intros [->|Hin]; [eauto|]. destruct (IH Hin) as (y & Hy & HP). eauto.
Qed.

Lemma subsequence_empty (text : string) : subsequence "" text = true.
Proof. now destruct text. Qed.

(** The model of the filter keeps every element, in order, on an empty query. *)
Lemma subsequence_filter_from_empty {A} (extract : A -> string) (arr : list A) (idx : nat) :
  map normalize (subsequence_filter_from idx "" arr extract) = arr.
Proof.
  revert idx. induction arr as [|el rest IH]; intros idx; simpl; [reflexivity|].
  rewrite subsequence_empty. simpl. now rewrite IH.
Qed.

Lemma subsequence_fuzzy_empty A (extract : A -> string) (arr : list A) :
  map normalize (@fuzzy_filter subsequence_fuzzy A "" arr extract) = arr.
Proof. apply subsequence_filter_from_empty. Qed.

(** C3, as stated, fails: a query that the text of the create-new record
    does not match filters that record out, for each of the three adapters. *)
Lemma create_new_choice_filtered_out :
  ~ (forall (F : FuzzyLib) (projects : list FirebaseProject) (input : string),
       exists choices c,
         fst (searchProjects Fulfilled input projects) = Normal choices /\
         In c choices /\ c_value c = Some NEW_OPTION) /\
  ~ (forall (F : FuzzyLib) (apps : list FirebaseApp) (input : string),
       exists choices c,
         fst (searchApps Fulfilled input apps) = Normal choices /\
         In c choices /\ c_value c = Some NEW_OPTION) /\
  ~ (forall (F : FuzzyLib) (sites : list FirebaseHostingSite) (input : string),
       exists choices c,
         fst (searchSites Fulfilled input sites) = Normal choices /\
         In c choices /\ c_value c = Some NEW_OPTION).
Proof.
  split; [|split]; intros H.
  - destruct (H subsequence_fuzzy [p1] "p1") as (choices & c & Hrun & Hin & Hv).
    vm_compute in Hrun. inversion Hrun; subst choices.
    destruct Hin as [<-|[]]. discriminate.
  - destruct (H subsequence_fuzzy [app1] "Shop") as (choices & c & Hrun & Hin & Hv).
    vm_compute in Hrun. inversion Hrun; subst choices.
    destruct Hin as [<-|[]]. discriminate.
  - destruct (H subsequence_fuzzy [site1] "shop") as (choices & c & Hrun & Hin & Hv).
    vm_compute in Hrun. inversion Hrun; subst choices.
    destruct Hin as [<-|[]]. discriminate.
Qed.

(** C3, amended.  Every adapter hands the create-new record to the filter,
    at the head of the candidates; whenever the filter retains that record
    for the query, the returned choices contain one whose value is the
    sentinel. *)
Theorem create_new_choice_when_retained (F : FuzzyLib) (input : string)
    (projects : list FirebaseProject) (apps : list FirebaseApp)
    (sites : list FirebaseHostingSite)
    (Hp : In newProject
            (map normalize (fuzzy_filter input (newProject :: projects) extractProject)))
    (Ha : In newApp
            (map normalize (fuzzy_filter input (newApp :: apps) appDisplayName)))
    (Hs : In newSite
            (map normalize (fuzzy_filter input (newSite :: sites) defaultUrl))) :
  (exists choices c,
     fst (searchProjects Fulfilled input projects) = Normal choices /\
     In c choices /\ c_value c = Some NEW_OPTION) /\
  (exists choices c,
     fst (searchApps Fulfilled input apps) = Normal choices /\
     In c choices /\ c_value c = Some NEW_OPTION) /\
  (exists choices c,
     fst (searchSites Fulfilled input sites) = Normal choices /\
     In c choices /\ c_value c = Some NEW_OPTION).
Proof.
  split; [|split].
  - rewrite searchProjects_run. simpl fst.
    eexists; exists (projectChoice (Raw newProject)).
    split; [reflexivity|]. split; [|reflexivity].
    exact (in_map (fun p => projectChoice (Raw p)) _ _ Hp).
  - destruct (searchApps_run input apps) as (choices & Hrun & Hall).
    destruct (@Forall2_In_left _ _ _ _ _ _ Hall Ha) as (c & Hin & Hc).
    exists choices, c. rewrite Hrun. repeat split; auto.
    vm_compute in Hc. now inversion Hc.
  - destruct (searchSites_run input sites) as (choices & Hrun & Hall).
    destruct (@Forall2_In_left _ _ _ _ _ _ Hall Hs) as (c & Hin & Hc).
    exists choices, c. rewrite Hrun. repeat split; auto.
    vm_compute in Hc. now inversion Hc.
Qed.

Lemma create_new_choice_when_retained_witness :
  (exists choices c,
     fst (@searchProjects subsequence_fuzzy Fulfilled "NEW" [p1]) = Normal choices /\
     In c choices /\ c_value c = Some NEW_OPTION) /\
  (exists choices c,
     fst (@searchApps subsequence_fuzzy Fulfilled "NEW" [app1]) = Normal choices /\
     In c choices /\ c_value c = Some NEW_OPTION) /\
  (exists choices c,
     fst (@searchSites subsequence_fuzzy Fulfilled "NEW" [site1]) = Normal choices /\
     In c choices /\ c_value c = Some NEW_OPTION).
Proof.
  apply (@create_new_choice_when_retained subsequence_fuzzy "NEW" [p1] [app1] [site1]);
    vm_compute; auto.
Defined.

(** C2: the code does otherwise.  Every invocation of a handler prepends the
    create-new record to the array the promise resolved to, so the array
    grows by one element per query; run twice on the array holding [p1], the
    project handler leaves two create-new records before [p1] and answers the
    second query with two create-new choices. *)
Theorem handler_prepends_to_resolved_array :
  (forall (F : FuzzyLib) input arr,
     snd (searchProjects Fulfilled input arr) = newProject :: arr) /\
  (forall (F : FuzzyLib) input arr,
     snd (searchApps Fulfilled input arr) = newApp :: arr) /\
  (forall (F : FuzzyLib) input arr,
     snd (searchSites Fulfilled input arr) = newSite :: arr) /\
  feed (@searchProjects subsequence_fuzzy Fulfilled) [""; ""] {| cell := [p1]; trace := [] |}
  = (Normal [ [createProjectChoice; projectChoice (Raw p1)];
              [createProjectChoice; createProjectChoice; projectChoice (Raw p1)] ],
     {| cell := [newProject; newProject; p1]; trace := [] |}).
Proof.
  repeat split.
Qed.

(** ** Backend calls of the resource flows *)

Lemma no_list_call_ret {R A} (a : A) : no_list_call (@ret (FlowState R) A a).
Proof. intros st. reflexivity. Qed.

Lemma no_list_call_eval {R A} (c : Completion A) : no_list_call (@eval (FlowState R) A c).
Proof. intros st. reflexivity. Qed.

Lemma no_list_call_await {R} (promise : Promise) : no_list_call (@await R promise).
Proof. intros st. now destruct promise. Qed.

Lemma no_list_call_bind {R A B} (m : M (FlowState R) A) (k : A -> M (FlowState R) B) :
  no_list_call m -> (forall a, no_list_call (k a)) -> no_list_call (mbind m k).
Proof.
  intros Hm Hk st. unfold mbind. specialize (Hm st).
  destruct (m st) as [[a|e] st']; simpl in *.
  - now rewrite Hk.
  - exact Hm.
Qed.

Lemma no_list_call_call {R A} (c : Call) (answer : Completion A) :
  is_list_call c = false -> no_list_call (@call (FlowState R) _ A c answer).
Proof.
  intros Hc st. unfold call, list_calls. simpl.
  rewrite filter_app. simpl. rewrite Hc. apply app_nil_r.
Qed.

Lemma no_list_call_invoke {R} (source : Handler R) (query : string) :
  no_list_call (invoke source query).
Proof. intros st. unfold invoke. now destruct (source query (cell st)). Qed.

Lemma no_list_call_feed {R} (source : Handler R) (queries : list string) :
  no_list_call (feed source queries).
Proof.
  induction queries as [|q qs IH]; simpl.
  - apply no_list_call_ret.
  - apply no_list_call_bind; [apply no_list_call_invoke|]. intros shown.
    apply no_list_call_bind; [exact IH|]. intros rest. apply no_list_call_ret.
Qed.

Lemma no_list_call_autocomplete {U : Renderer} {R} qname (source : Handler R) default :
  no_list_call default -> no_list_call (autocomplete qname source default).
Proof.
  intros Hd. unfold autocomplete.
  apply no_list_call_bind; [exact Hd|]. intros d.
  apply no_list_call_bind; [apply no_list_call_feed|]. intros shown.
  apply no_list_call_ret.
Qed.

Lemma list_calls_fetch {R} (c : Call) (answer : Completion (list R)) st :
  is_list_call c = true ->
  list_calls (snd (fetch c answer st)) = list_calls st ++ [c].
Proof.
  intros Hc. unfold fetch, list_calls.
  destruct answer; simpl; rewrite filter_app; simpl; now rewrite Hc.
Qed.

Lemma list_calls_after_fetch {R A} (c : Call) (answer : Completion (list R))
    (k : Promise -> M (FlowState R) A) :
  is_list_call c = true -> (forall p, no_list_call (k p)) ->
  list_calls (snd (mbind (fetch c answer) k (start R))) = [c].
Proof.
  intros Hc Hk. unfold mbind.
  pose proof (list_calls_fetch c answer (start R) Hc) as Hf.
  destruct (fetch c answer (start R)) as [[p|e] st'] eqn:E; simpl in *.
  - now rewrite Hk.
  - exact Hf.
Qed.

(** C6.  Whatever the backend answers and however many query texts the
    renderer hands to the source, each resource flow makes its list call
    exactly once: the calls of the flow that are list calls are that single
    one, made when the flow starts. *)
Theorem list_call_made_exactly_once (F : FuzzyLib) (B : Backend) (U : Renderer)
    (defaultProject defaultAppId : option string) (parent : FirebaseProject)
    (options : Options) :
  list_calls (snd (projectPrompt defaultProject options (start _)))
  = [ProjectsList options] /\
  list_calls (snd (appPrompt parent defaultAppId options (start _)))
  = [AppsList "web" options (projectId parent)] /\
  list_calls (snd (sitePrompt parent options (start _)))
  = [SitesList options (projectId parent)].
Proof.
  split; [|split].
  - unfold projectPrompt. apply list_calls_after_fetch; [reflexivity|]. intros p.
    apply no_list_call_bind.
    + apply no_list_call_autocomplete, no_list_call_ret.
    + intros selected. destruct (strict_eq selected (Some NEW_OPTION)).
      * apply no_list_call_bind; [now apply no_list_call_call|].
        intros created. apply no_list_call_ret.
      * apply no_list_call_bind; [apply no_list_call_await|].
        intros resolved. apply no_list_call_ret.
  - unfold appPrompt. apply list_calls_after_fetch; [reflexivity|]. intros p.
    apply no_list_call_bind.
    + apply no_list_call_autocomplete, no_list_call_ret.
    + intros selected. destruct (strict_eq selected (Some NEW_OPTION)).
      * apply no_list_call_bind; [now apply no_list_call_call|].
        intros created. apply no_list_call_ret.
      * apply no_list_call_bind; [apply no_list_call_await|].
        intros resolved. apply no_list_call_eval.
  - unfold sitePrompt, sitePromptSites. apply list_calls_after_fetch; [reflexivity|].
    intros p. apply no_list_call_bind.
    + apply no_list_call_autocomplete.
      apply no_list_call_bind; [apply no_list_call_await|].
      intros it. apply no_list_call_eval.
    + intros selected. destruct (strict_eq selected (Some NEW_OPTION)).
      * apply no_list_call_bind; [now apply no_list_call_call|].
        intros created. apply no_list_call_ret.
      * apply no_list_call_bind; [apply no_list_call_await|].
        intros resolved. apply no_list_call_eval.
Qed.

(** ** The lookup that ends a flow *)

Lemma strict_eq_true_iff (a b : option string) : strict_eq a b = true <-> a = b.
Proof.
  destruct a as [x|], b as [y|]; simpl; split; try congruence.
  - intros H. apply String.eqb_eq in H. now subst.
  - intros H. inversion H. apply String.eqb_refl.
Qed.

Lemma strict_eq_false_iff (a b : option string) : strict_eq a b = false <-> a <> b.
Proof.
  rewrite <- strict_eq_true_iff. destruct (strict_eq a b); split; congruence.
Qed.

Lemma repeat_app_cons {A} (x : A) (n : nat) (l : list A) :
  repeat x n ++ x :: l = x :: repeat x n ++ l.
Proof. induction n as [|n IH]; simpl; [reflexivity | now rewrite IH]. Qed.

(** After the renderer has handed [n] query texts to a handler of a fulfilled
    promise, the array holds [n] create-new records before its elements. *)
Lemma feed_prepends {R} (source : Handler R) (x : R) :
  (forall q arr, exists choices, source q arr = (Normal choices, x :: arr)) ->
  forall queries st, exists shown,
    feed source queries st
    = (Normal shown, {| cell := repeat x (length queries) ++ cell st; trace := trace st |}).
Proof.
  intros Hsource queries. induction queries as [|q qs IH]; intros st; simpl.
  - exists []. now destruct st.
  - unfold mbind at 1. unfold invoke.
    destruct (Hsource q (cell st)) as [choices ->].
    destruct (IH {| cell := x :: cell st; trace := trace st |}) as [shown Hshown].
    unfold mbind. rewrite Hshown. exists (choices :: shown). unfold ret. simpl.
    now rewrite repeat_app_cons.
Qed.

Lemma searchProjects_prepends {F : FuzzyLib} q arr :
  exists choices, searchProjects Fulfilled q arr = (Normal choices, newProject :: arr).
Proof. rewrite searchProjects_run. eauto. Qed.

Lemma searchApps_prepends {F : FuzzyLib} q arr :
  exists choices, searchApps Fulfilled q arr = (Normal choices, newApp :: arr).
Proof. destruct (searchApps_run q arr) as (choices & H & _). eauto. Qed.

Lemma searchSites_prepends {F : FuzzyLib} q arr :
  exists choices, searchSites Fulfilled q arr = (Normal choices, newSite :: arr).
Proof. destruct (searchSites_run q arr) as (choices & H & _). eauto. Qed.

Lemma find_skip_repeat {A} (p : A -> bool) (x : A) (n : nat) (l : list A) :
  p x = false -> find p (repeat x n ++ l) = find p l.
Proof. intros Hx. induction n as [|n IH]; simpl; [reflexivity | now rewrite Hx]. Qed.

Lemma findM_skip_repeat {A} (p : A -> Completion bool) (x : A) (n : nat) (l : list A) :
  p x = Normal false -> findM p (repeat x n ++ l) = findM p l.
Proof. intros Hx. induction n as [|n IH]; simpl; [reflexivity | now rewrite Hx]. Qed.

Lemma find_first {A} (p : A -> bool) (pre post : list A) (r : A) :
  (forall x, In x pre -> p x = false) -> p r = true ->
  find p (pre ++ r :: post) = Some r.
Proof.
  intros Hpre Hr. induction pre as [|x pre IH]; simpl; [now rewrite Hr|].
  rewrite (Hpre x (or_introl eq_refl)). apply IH. intros y Hy. apply Hpre. now right.
Qed.

Lemma find_nowhere {A} (p : A -> bool) (l : list A) :
  (forall x, In x l -> p x = false) -> find p l = None.
Proof.
  intros Hl. induction l as [|x l IH]; simpl; [reflexivity|].
  rewrite (Hl x (or_introl eq_refl)). apply IH. intros y Hy. apply Hl. now right.
Qed.

Lemma findM_first {A} (p : A -> Completion bool) (pre post : list A) (r : A) :
  (forall x, In x pre -> p x = Normal false) -> p r = Normal true ->
  findM p (pre ++ r :: post) = Normal (Some r).
Proof.
  intros Hpre Hr. induction pre as [|x pre IH]; simpl; [now rewrite Hr|].
  rewrite (Hpre x (or_introl eq_refl)). simpl. apply IH. intros y Hy. apply Hpre. now right.
Qed.

Lemma findM_nowhere {A} (p : A -> Completion bool) (l : list A) :
  (forall x, In x l -> p x = Normal false) -> findM p l = Normal None.
Proof.
  intros Hl. induction l as [|x l IH]; simpl; [reflexivity|].
  rewrite (Hl x (or_introl eq_refl)). simpl. apply IH. intros y Hy. apply Hl. now right.
Qed.

(** The predicates of the two short-identifier lookups. *)
Lemma app_matches_iff (it : FirebaseApp) (selected : option string) (b : bool) :
  (v <- shortAppId (Some it) ;; Normal (strict_eq v selected)) = Normal b <->
  (if b then shortAppId (Some it) = Normal selected
   else shortAppId (Some it) <> Normal selected).
Proof.
  destruct (shortAppId_complete (Some it)) as [v Hv]. rewrite Hv. simpl.
  destruct (strict_eq v selected) eqn:E.
  - apply strict_eq_true_iff in E. subst. destruct b; split; congruence.
  - apply strict_eq_false_iff in E. destruct b; split; congruence.
Qed.

Lemma site_matches_iff (it : FirebaseHostingSite) (selected : option string) (b : bool) :
  (v <- shortSiteName (Some it) ;; Normal (strict_eq v selected)) = Normal b <->
  (if b then shortSiteName (Some it) = Normal selected
   else shortSiteName (Some it) <> Normal selected).
Proof.
  destruct (shortSiteName_complete (Some it)) as [v Hv]. rewrite Hv. simpl.
  destruct (strict_eq v selected) eqn:E.
  - apply strict_eq_true_iff in E. subst. destruct b; split; congruence.
  - apply strict_eq_false_iff in E. destruct b; split; congruence.
Qed.

Section Lookup.

Context {F : FuzzyLib} {B : Backend} {U : Renderer}.

Lemma projectPrompt_lookup defaultProject options resolved selected :
  projects_list options = Normal resolved ->
  (forall d shown, select "projectId" d shown = selected) ->
  selected <> Some NEW_OPTION ->
  fst (projectPrompt defaultProject options (start _))
  = Normal (find (fun it => strict_eq (Some (projectId it)) selected) resolved).
Proof.
  intros Hlist Hsel Hnew.
  unfold projectPrompt, mbind at 1. unfold fetch. rewrite Hlist.
  unfold mbind at 1. unfold autocomplete, mbind at 1. unfold ret at 1.
  unfold mbind at 1.
  match goal with
  | |- context [feed ?h ?qs ?st] =>
      destruct (feed_prepends (x := newProject) h searchProjects_prepends qs st)
        as [shown ->]
  end.
  unfold ret at 1. rewrite Hsel.
  apply strict_eq_false_iff in Hnew. rewrite Hnew.
  unfold mbind, await, ret. cbn [fst cell].
  rewrite app_nil_r || idtac.
  rewrite find_skip_repeat; [reflexivity|].
  apply strict_eq_false_iff. apply strict_eq_false_iff in Hnew. cbn [projectId newProject].
  congruence.
Qed.

Lemma appPrompt_lookup parent defaultAppId options resolved selected :
  apps_list "web" options (projectId parent) = Normal resolved ->
  (forall d shown, select "appId" d shown = selected) ->
  selected <> Some NEW_OPTION ->
  fst (appPrompt parent defaultAppId options (start _))
  = findM (fun it => v <- shortAppId (Some it) ;; Normal (strict_eq v selected)) resolved.
Proof.
  intros Hlist Hsel Hnew.
  unfold appPrompt, mbind at 1. unfold fetch. rewrite Hlist.
  unfold mbind at 1. unfold autocomplete, mbind at 1. unfold ret at 1.
  unfold mbind at 1.
  match goal with
  | |- context [feed ?h ?qs ?st] =>
      destruct (feed_prepends (x := newApp) h searchApps_prepends qs st)
        as [shown ->]
  end.
  unfold ret at 1. rewrite Hsel.
  apply strict_eq_false_iff in Hnew. rewrite Hnew.
  unfold mbind, await, eval. cbn [fst cell].
  rewrite findM_skip_repeat; [reflexivity|].
  apply app_matches_iff. apply strict_eq_false_iff in Hnew.
  intros H. apply Hnew. vm_compute in H. now inversion H.
Qed.

Lemma sitePrompt_lookup parent options listed selected :
  sites_list options (projectId parent) = Normal listed ->
  (forall d shown, select "siteName" d shown = selected) ->
  selected <> Some NEW_OPTION ->
  fst (sitePrompt parent options (start _))
  = findM (fun it => v <- shortSiteName (Some it) ;; Normal (strict_eq v selected))
          (sitesOrStub (projectId parent) listed).
Proof.
  intros Hlist Hsel Hnew.
  unfold sitePrompt, sitePromptSites, mbind at 1. unfold fetch. rewrite Hlist.
  cbn [JS.bind]. unfold mbind at 1. unfold autocomplete, mbind at 1.
  unfold mbind at 1. unfold await at 1. unfold eval at 1.
  match goal with
  | |- context [shortSiteName ?s] =>
      destruct (shortSiteName_complete s) as [d ->]
  end.
  unfold mbind at 1.
  match goal with
  | |- context [feed ?h ?qs ?st] =>
      destruct (feed_prepends (x := newSite) h searchSites_prepends qs st)
        as [shown ->]
  end.
  unfold ret at 1. rewrite Hsel.
  apply strict_eq_false_iff in Hnew. rewrite Hnew.
  unfold mbind, await, eval. cbn [fst cell].
  rewrite findM_skip_repeat; [reflexivity|].
  apply site_matches_iff. apply strict_eq_false_iff in Hnew.
  intros H. apply Hnew. vm_compute in H. now inversion H.
Qed.

End Lookup.

(** C1, as stated, fails in each of the three flows: a user who selects an
    identifier that is not the sentinel and that no record of the resolved
    list carries gets no error. *)
Lemma unmatched_selection_does_not_throw :
  ~ (forall (F : FuzzyLib) (B : Backend) (U : Renderer)
       (defaultProject : option string) (options : Options)
       (resolved : list FirebaseProject) (selected : option string),
       projects_list options = Normal resolved ->
       (forall d shown, select "projectId" d shown = selected) ->
       selected <> Some NEW_OPTION ->
       (forall x, In x resolved -> Some (projectId x) <> selected) ->
       exists e, fst (projectPrompt defaultProject options (start _)) = Throw e) /\
  ~ (forall (F : FuzzyLib) (B : Backend) (U : Renderer)
       (parent : FirebaseProject) (defaultAppId : option string) (options : Options)
       (resolved : list FirebaseApp) (selected : option string),
       apps_list "web" options (projectId parent) = Normal resolved ->
       (forall d shown, select "appId" d shown = selected) ->
       selected <> Some NEW_OPTION ->
       (forall x, In x resolved -> shortAppId (Some x) <> Normal selected) ->
       exists e, fst (appPrompt parent defaultAppId options (start _)) = Throw e) /\
  ~ (forall (F : FuzzyLib) (B : Backend) (U : Renderer)
       (parent : FirebaseProject) (options : Options)
       (listed : list FirebaseHostingSite) (selected : option string),
       sites_list options (projectId parent) = Normal listed ->
       (forall d shown, select "siteName" d shown = selected) ->
       selected <> Some NEW_OPTION ->
       (forall x, In x (sitesOrStub (projectId parent) listed) ->
                  shortSiteName (Some x) <> Normal selected) ->
       exists e, fst (sitePrompt parent options (start _)) = Throw e).
Proof.
  split; [|split]; intros H.
  - destruct (H subsequence_fuzzy (serving None [p1] [app1] [site1])
                (scripted [""] (Some "zzz")) None noOptions [p1] (Some "zzz"))
      as [e He];
      [reflexivity | reflexivity | discriminate | | vm_compute in He; discriminate].
    intros x [<-|[]]. discriminate.
  - destruct (H subsequence_fuzzy (serving None [p1] [app1] [site1])
                (scripted [""] (Some "zzz")) p1 None noOptions [app1] (Some "zzz"))
      as [e He];
      [reflexivity | reflexivity | discriminate | | vm_compute in He; discriminate].
    intros x [<-|[]]. vm_compute. discriminate.
  - destruct (H subsequence_fuzzy (serving None [p1] [app1] [site1])
                (scripted [""] (Some "zzz")) p1 noOptions [site1] (Some "zzz"))
      as [e He];
      [reflexivity | reflexivity | discriminate | | vm_compute in He; discriminate].
    intros x [<-|[]]. vm_compute. discriminate.
Qed.

(** C1, amended.  In each resource flow, when the list call succeeds, the
    user selects a value other than the sentinel and no record of the
    resolved list has that short identifier, the flow returns normally, with
    the [undefined] of the unsuccessful [find]. *)
Theorem unmatched_selection_returns_undefined
    (F : FuzzyLib) (B : Backend) (U : Renderer)
    (defaultProject defaultAppId : option string) (parent : FirebaseProject)
    (options : Options)
    (projects : list FirebaseProject) (apps : list FirebaseApp)
    (sites : list FirebaseHostingSite)
    (selectedProject selectedApp selectedSite : option string)
    (HlistP : projects_list options = Normal projects)
    (HlistA : apps_list "web" options (projectId parent) = Normal apps)
    (HlistS : sites_list options (projectId parent) = Normal sites)
    (HselP : forall d shown, select "projectId" d shown = selectedProject)
    (HselA : forall d shown, select "appId" d shown = selectedApp)
    (HselS : forall d shown, select "siteName" d shown = selectedSite)
    (HnewP : selectedProject <> Some NEW_OPTION)
    (HnewA : selectedApp <> Some NEW_OPTION)
    (HnewS : selectedSite <> Some NEW_OPTION)
    (HmissP : forall x, In x projects -> Some (projectId x) <> selectedProject)
    (HmissA : forall x, In x apps -> shortAppId (Some x) <> Normal selectedApp)
    (HmissS : forall x, In x (sitesOrStub (projectId parent) sites) ->
                        shortSiteName (Some x) <> Normal selectedSite) :
  fst (projectPrompt defaultProject options (start _)) = Normal None /\
  fst (appPrompt parent defaultAppId options (start _)) = Normal None /\
  fst (sitePrompt parent options (start _)) = Normal None.
Proof.
  split; [|split].
  - rewrite (@projectPrompt_lookup F B U defaultProject options _ _ HlistP HselP HnewP).
    f_equal. apply find_nowhere. intros x Hx.
    apply strict_eq_false_iff. now apply HmissP.
  - rewrite (@appPrompt_lookup F B U parent defaultAppId options _ _ HlistA HselA HnewA).
    apply findM_nowhere. intros x Hx.
    apply (app_matches_iff x selectedApp false). now apply HmissA.
  - rewrite (@sitePrompt_lookup F B U parent options _ _ HlistS HselS HnewS).
    apply findM_nowhere. intros x Hx.
    apply (site_matches_iff x selectedSite false). now apply HmissS.
Qed.

Lemma unmatched_selection_returns_undefined_witness :
  fst (@projectPrompt subsequence_fuzzy (serving None [p1] [app1] [site1])
         (scripted [""; "z"] (Some "zzz")) None noOptions (start _)) = Normal None /\
  fst (@appPrompt subsequence_fuzzy (serving None [p1] [app1] [site1])
         (scripted [""; "z"] (Some "zzz")) p1 None noOptions (start _)) = Normal None /\
  fst (@sitePrompt subsequence_fuzzy (serving None [p1] [app1] [site1])
         (scripted [""; "z"] (Some "zzz")) p1 noOptions (start _)) = Normal None.
Proof.
  apply (@unmatched_selection_returns_undefined
           subsequence_fuzzy (serving None [p1] [app1] [site1])
           (scripted [""; "z"] (Some "zzz")) None None p1 noOptions
           [p1] [app1] [site1] (Some "zzz") (Some "zzz") (Some "zzz"));
    try reflexivity; try discriminate;
    intros x [<-|[]]; vm_compute; discriminate.
Defined.

(** C9.  In each resource flow, when the list call succeeds and the user
    selects a value other than the sentinel, the flow returns the first
    record of the resolved list whose short identifier equals the selected
    value: with [r] such a record and no record before it carrying that
    identifier, the flow returns [r], whatever identifiers the other records
    carry. *)
Theorem selection_returns_record_with_that_id
    (F : FuzzyLib) (B : Backend) (U : Renderer)
    (defaultProject defaultAppId : option string) (parent : FirebaseProject)
    (options : Options)
    (beforeP afterP : list FirebaseProject) (p : FirebaseProject)
    (beforeA afterA : list FirebaseApp) (a : FirebaseApp)
    (sites beforeS afterS : list FirebaseHostingSite) (s : FirebaseHostingSite)
    (selectedProject selectedApp selectedSite : option string)
    (HlistP : projects_list options = Normal (beforeP ++ p :: afterP))
    (HlistA : apps_list "web" options (projectId parent) = Normal (beforeA ++ a :: afterA))
    (HlistS : sites_list options (projectId parent) = Normal sites)
    (HpoolS : sitesOrStub (projectId parent) sites = beforeS ++ s :: afterS)
    (HselP : forall d shown, select "projectId" d shown = selectedProject)
    (HselA : forall d shown, select "appId" d shown = selectedApp)
    (HselS : forall d shown, select "siteName" d shown = selectedSite)
    (HnewP : selectedProject <> Some NEW_OPTION)
    (HnewA : selectedApp <> Some NEW_OPTION)
    (HnewS : selectedSite <> Some NEW_OPTION)
    (HidP : Some (projectId p) = selectedProject)
    (HidA : shortAppId (Some a) = Normal selectedApp)
    (HidS : shortSiteName (Some s) = Normal selectedSite)
    (HfirstP : forall x, In x beforeP -> Some (projectId x) <> selectedProject)
    (HfirstA : forall x, In x beforeA -> shortAppId (Some x) <> Normal selectedApp)
    (HfirstS : forall x, In x beforeS -> shortSiteName (Some x) <> Normal selectedSite) :
  fst (projectPrompt defaultProject options (start _)) = Normal (Some p) /\
  fst (appPrompt parent defaultAppId options (start _)) = Normal (Some a) /\
  fst (sitePrompt parent options (start _)) = Normal (Some s).
Proof.
  split; [|split].
  - rewrite (@projectPrompt_lookup F B U defaultProject options _ _ HlistP HselP HnewP).
    f_equal. apply find_first.
    + intros x Hx. apply strict_eq_false_iff. now apply HfirstP.
    + now apply strict_eq_true_iff.
  - rewrite (@appPrompt_lookup F B U parent defaultAppId options _ _ HlistA HselA HnewA).
    apply findM_first.
    + intros x Hx. apply (app_matches_iff x selectedApp false). now apply HfirstA.
    + now apply (app_matches_iff a selectedApp true).
  - rewrite (@sitePrompt_lookup F B U parent options _ _ HlistS HselS HnewS), HpoolS.
    apply findM_first.
    + intros x Hx. apply (site_matches_iff x selectedSite false). now apply HfirstS.
    + now apply (site_matches_iff s selectedSite true).
Qed.

Lemma selection_returns_record_with_that_id_witness :
  fst (@projectPrompt subsequence_fuzzy
         (serving None [projectAbcd; projectAbc] [appAbcd; appAbc] [siteAbcd; siteAbc])
         (scripted [""; "abc"] (Some "abc")) None noOptions (start _))
  = Normal (Some projectAbc) /\
  fst (@appPrompt subsequence_fuzzy
         (serving None [projectAbcd; projectAbc] [appAbcd; appAbc] [siteAbcd; siteAbc])
         (scripted [""; "abc"] (Some "abc")) p1 None noOptions (start _))
  = Normal (Some appAbc) /\
  fst (@sitePrompt subsequence_fuzzy
         (serving None [projectAbcd; projectAbc] [appAbcd; appAbc] [siteAbcd; siteAbc])
         (scripted [""; "abc"] (Some "abc")) p1 noOptions (start _))
  = Normal (Some siteAbc).
Proof.
  apply (@selection_returns_record_with_that_id
           subsequence_fuzzy
           (serving None [projectAbcd; projectAbc] [appAbcd; appAbc] [siteAbcd; siteAbc])
           (scripted [""; "abc"] (Some "abc")) None None p1 noOptions
           [projectAbcd] [] projectAbc [appAbcd] [] appAbc
           [siteAbcd; siteAbc] [siteAbcd] [] siteAbc
           (Some "abc") (Some "abc") (Some "abc"));
    try reflexivity; try discriminate;
    intros x [<-|[]]; vm_compute; discriminate.
Defined.

(** ** The account flow *)

(** C8.  When [login.list] yields no account, an empty array or none at all,
    and the bare login completes, [userPrompt] calls the backend three times:
    the listing, a bare login, then a login with the options; it completes as
    the second login does, returning its account. *)
Theorem first_login_made_twice (B : Backend) (U : Renderer) (options : Options)
    (first : Account)
    (Hnone : login_list = Normal None \/ login_list = Normal (Some []))
    (Hfirst : login None = Normal first) :
  snd (userPrompt options []) = [LoginList; Login None; Login (Some options)] /\
  fst (userPrompt options [])
  = match login (Some options) with
    | Normal account => Normal (UAccount account)
    | Throw e => Throw e
    end.
Proof.
  unfold userPrompt, mbind, call, ret. cbn [record traced_calls app].
  destruct Hnone as [-> | ->]; cbn [length Nat.eqb]; rewrite Hfirst;
    destruct (login (Some options)); split; reflexivity.
Qed.

Lemma first_login_made_twice_witness :
  snd (@userPrompt (serving (Some []) [] [] []) (scripted [] None) noOptions [])
  = [LoginList; Login None; Login (Some noOptions)] /\
  fst (@userPrompt (serving (Some []) [] [] []) (scripted [] None) noOptions [])
  = Normal (UAccount {| email := "second@example.com" |}).
Proof.
  exact (@first_login_made_twice (serving (Some []) [] [] []) (scripted [] None) noOptions
           {| email := "first@example.com" |} (or_intror eq_refl) eq_refl).
Defined.

(** * Further properties of the module *)

(** ** Short identifiers of resource paths *)

Lemma split_nonempty (sep : ascii) (s : string) : split sep s <> [].
Proof.
  destruct s as [|c rest]; simpl; [discriminate|].
  destruct (Ascii.eqb c sep); [discriminate|].
  destruct (split sep rest); discriminate.
Qed.

(** Splitting a text at a separator splits what precedes it and what follows
    it independently. *)
Lemma split_app_sep (sep : ascii) (pre t : string) :
  split sep (pre ++ String sep t)%string = split sep pre ++ split sep t.
Proof.
  induction pre as [|c pre IH]; simpl.
  - now rewrite Ascii.eqb_refl.
  - rewrite IH. destruct (Ascii.eqb c sep); [reflexivity|].
    pose proof (split_nonempty sep pre) as Hne.
    destruct (split sep pre) as [|seg segs]; [now destruct Hne | reflexivity].
Qed.

Lemma split_without_sep (sep : ascii) (t : string) :
  has_char sep t = false -> split sep t = [t].
Proof.
  induction t as [|c t IH]; simpl; [reflexivity|].
  intros H. apply orb_false_iff in H as [Hc Ht].
  rewrite Hc, (IH Ht). reflexivity.
Qed.

Lemma pop_split_path (sep : ascii) (pre t : string) :
  has_char sep t = false -> pop (split sep (pre ++ String sep t)%string) = Some t.
Proof.
  intros Ht. rewrite split_app_sep, (split_without_sep _ _ Ht). apply pop_snoc.
Qed.

Lemma path_not_empty (pre t : string) (sep : ascii) :
  ((pre ++ String sep t)%string =? "")%string = false.
Proof. now destruct pre. Qed.

(** X1.  For a resource path [prefix/t] whose last segment [t] has no slash,
    whatever the prefix, [shortAppId] and [shortSiteName] return [t]. *)
Theorem short_id_of_path (pre t : string) (d u : string) (ty a : option string)
    (Hsegment : has_char slash t = false) :
  shortAppId (Some {| appId := Some (pre ++ String slash t)%string; appDisplayName := d |})
  = Normal (Some t) /\
  shortSiteName (Some {| name := Some (pre ++ String slash t)%string; defaultUrl := u;
                         type := ty; siteAppId := a |})
  = Normal (Some t).
Proof.
  unfold shortAppId, shortSiteName.
  cbn [chain_appId chain_name appId name truthy read_appId read_name].
  rewrite path_not_empty. cbn [negb JS.bind call_split].
  now rewrite (pop_split_path slash pre t Hsegment).
Qed.

Lemma short_id_of_path_witness :
  shortAppId (Some {| appId := Some "projects/p1/apps/abc"; appDisplayName := "Shop" |})
  = Normal (Some "abc") /\
  shortSiteName (Some {| name := Some "projects/p1/sites/abc"; defaultUrl := "u";
                         type := None; siteAppId := None |})
  = Normal (Some "abc").
Proof.
  exact (@short_id_of_path "projects/p1/apps" "abc" "Shop" "u" None None eq_refl).
Defined.

Lemma short_value_stable (v : option string) :
  (v = None \/ exists t, v = Some t /\ has_char slash t = false) ->
  (if truthy v then
     x <- Normal v ;; segs <- call_split x slash ;; Normal (pop segs)
   else Normal v) = Normal v.
Proof.
  intros [-> | (t & -> & Ht)]; [reflexivity|].
  destruct t as [|c t]; [reflexivity|].
  cbn [truthy String.eqb negb JS.bind call_split].
  now rewrite (split_without_sep _ _ Ht).
Qed.

Lemma short_value_shape (s : option string) :
  exists v,
    (if truthy s then
       x <- Normal s ;; segs <- call_split x slash ;; Normal (pop segs)
     else Normal s) = Normal v /\
    (v = None \/ exists t, v = Some t /\ has_char slash t = false).
Proof.
  destruct s as [[|c s]|].
  - exists (Some ""%string). split; [reflexivity|]. right. now exists ""%string.
  - destruct (pop_split_last_segment slash (String c s)) as (seg & Hpop & Hfree & _).
    exists (Some seg). cbn [truthy String.eqb negb JS.bind call_split].
    rewrite Hpop. split; [reflexivity|]. right. now exists seg.
  - exists None. split; [reflexivity|]. now left.
Qed.

(** X2.  Short identifiers are stable: the short identifier of any app or
    site is a value that [shortAppId] and [shortSiteName] return unchanged
    when it is itself the identifier of a record. *)
Theorem short_id_idempotent :
  (forall app, exists v,
     shortAppId (Some app) = Normal v /\
     forall d, shortAppId (Some {| appId := v; appDisplayName := d |}) = Normal v) /\
  (forall site, exists v,
     shortSiteName (Some site) = Normal v /\
     forall u ty a,
       shortSiteName (Some {| name := v; defaultUrl := u; type := ty; siteAppId := a |})
       = Normal v).
Proof.
  split.
  - intros [s d0]. destruct (short_value_shape s) as (v & Hv & Hshape).
    exists v. split; [exact Hv|]. intros d. exact (short_value_stable Hshape).
  - intros [s u0 ty0 a0]. destruct (short_value_shape s) as (v & Hv & Hshape).
    exists v. split; [exact Hv|]. intros u ty a. exact (short_value_stable Hshape).
Qed.

(** ** Answers of the search adapters *)

Lemma appChoice_fields e c :
  appChoice e = Normal c ->
  c_name c = appDisplayName (normalize e) /\ c_title c = c_name c /\
  shortAppId (Some (normalize e)) = Normal (c_value c).
Proof.
  rewrite appChoice_normalize. unfold appChoice. cbn [originalApp isApp read_original
    is_undefined narrow].
  destruct (shortAppId_complete (Some (normalize e))) as [v Hv]. rewrite Hv.
  cbn [JS.bind]. intros H. inversion H. subst c. cbn. auto.
Qed.

Lemma siteChoice_fields e c :
  siteChoice e = Normal c ->
  c_name c = defaultUrl (normalize e) /\ c_title c = c_name c /\
  shortSiteName (Some (normalize e)) = Normal (c_value c).
Proof.
  rewrite siteChoice_normalize. unfold siteChoice. cbn [originalSite isSite read_original
    is_undefined narrow].
  destruct (shortSiteName_complete (Some (normalize e))) as [v Hv]. rewrite Hv.
  cbn [JS.bind]. intros H. inversion H. subst c. cbn. auto.
Qed.

Lemma searchProjects_answer {F : FuzzyLib} input projects :
  exists choices,
    fst (searchProjects Fulfilled input projects) = Normal choices /\
    Forall2 (fun e c => c_name c = displayName (normalize e) /\ c_title c = c_name c /\
                        c_value c = Some (projectId (normalize e)))
            (fuzzy_filter input (newProject :: projects) extractProject) choices.
Proof.
  eexists. split; [reflexivity|]. unfold unshift.
  induction (fuzzy_filter input (newProject :: projects) extractProject) as [|e l IH];
    simpl; constructor; auto.
  rewrite projectChoice_normalize. cbn. auto.
Qed.

Lemma searchApps_answer {F : FuzzyLib} input apps :
  exists choices,
    fst (searchApps Fulfilled input apps) = Normal choices /\
    Forall2 (fun e c => c_name c = appDisplayName (normalize e) /\ c_title c = c_name c /\
                        shortAppId (Some (normalize e)) = Normal (c_value c))
            (fuzzy_filter input (newApp :: apps) appDisplayName) choices.
Proof.
  unfold searchApps, unshift.
  destruct (mapM_complete appChoice (fuzzy_filter input (newApp :: apps) appDisplayName)
              appChoice_complete) as (ys & -> & Hall).
  exists ys. split; [reflexivity|].
  eapply Forall2_impl; [|exact Hall]. intros e c H. now apply appChoice_fields.
Qed.

Lemma searchSites_answer {F : FuzzyLib} input sites :
  exists choices,
    fst (searchSites Fulfilled input sites) = Normal choices /\
    Forall2 (fun e c => c_name c = defaultUrl (normalize e) /\ c_title c = c_name c /\
                        shortSiteName (Some (normalize e)) = Normal (c_value c))
            (fuzzy_filter input (newSite :: sites) defaultUrl) choices.
Proof.
  unfold searchSites, unshift.
  destruct (mapM_complete siteChoice (fuzzy_filter input (newSite :: sites) defaultUrl)
              siteChoice_complete) as (ys & -> & Hall).
  exists ys. split; [reflexivity|].
  eapply Forall2_impl; [|exact Hall]. intros e c H. now apply siteChoice_fields.
Qed.

(** X3.  Whatever the filter returns, no adapter raises on a fulfilled
    promise, and its answer has one choice per element of the filter result,
    in the order of that result: the choice shows the record's display text
    as both name and title and carries the record's short identifier. *)
Theorem adapter_answers_follow_filter (F : FuzzyLib) (input : string)
    (projects : list FirebaseProject) (apps : list FirebaseApp)
    (sites : list FirebaseHostingSite) :
  (exists choices,
     fst (searchProjects Fulfilled input projects) = Normal choices /\
     Forall2 (fun e c => c_name c = displayName (normalize e) /\ c_title c = c_name c /\
                         c_value c = Some (projectId (normalize e)))
             (fuzzy_filter input (newProject :: projects) extractProject) choices) /\
  (exists choices,
     fst (searchApps Fulfilled input apps) = Normal choices /\
     Forall2 (fun e c => c_name c = appDisplayName (normalize e) /\ c_title c = c_name c /\
                         shortAppId (Some (normalize e)) = Normal (c_value c))
             (fuzzy_filter input (newApp :: apps) appDisplayName) choices) /\
  (exists choices,
     fst (searchSites Fulfilled input sites) = Normal choices /\
     Forall2 (fun e c => c_name c = defaultUrl (normalize e) /\ c_title c = c_name c /\
                         shortSiteName (Some (normalize e)) = Normal (c_value c))
             (fuzzy_filter input (newSite :: sites) defaultUrl) choices).
Proof.
  split; [apply searchProjects_answer|].
  split; [apply searchApps_answer | apply searchSites_answer].
Qed.

(** ** Runs of the renderer over a handler *)

Lemma Forall2_In_right {A B} (P : A -> B -> Prop) l ys y :
  Forall2 P l ys -> In y ys -> exists x, In x l /\ P x y.
Proof.
  induction 1 as [|a b l ys Hab _ IH]; simpl; [now intros []|].
  intros [->|Hin]; [eauto|]. destruct (IH Hin) as (x & Hx & HP). eauto.
Qed.

(** A handler whose every answer on an array prepends [x] and offers only
    choices that stand, by [rel], for records of the array it leaves: over a
    run of queries the array gains one [x] per query, and every choice shown
    stands for [x] or for a record the array held at the start. *)
Lemma feed_offers {R} (source : Handler R) (x : R) (rel : R -> Choice -> Prop) :
  (forall q arr, exists choices,
      source q arr = (Normal choices, x :: arr) /\
      forall c, In c choices -> exists r, In r (x :: arr) /\ rel r c) ->
  forall queries st, exists shown,
    feed source queries st
    = (Normal shown, {| cell := repeat x (length queries) ++ cell st; trace := trace st |}) /\
    forall choices c, In choices shown -> In c choices ->
                      exists r, (r = x \/ In r (cell st)) /\ rel r c.
Proof.
  intros Hsource queries. induction queries as [|q qs IH]; intros st; simpl.
  - exists []. split; [now destruct st | intros ? ? []].
  - unfold mbind at 1. unfold invoke.
    destruct (Hsource q (cell st)) as (choices & -> & Hchoices).
    destruct (IH {| cell := x :: cell st; trace := trace st |}) as (shown & Hshown & Hrest).
    unfold mbind. rewrite Hshown. exists (choices :: shown). unfold ret. cbn [cell trace].
    rewrite repeat_app_cons. split; [reflexivity|].
    intros cs c [<-|Hcs] Hc.
    + destruct (Hchoices c Hc) as (r & [<-|Hr] & Hrel); eauto.
    + destruct (Hrest cs c Hcs Hc) as (r & [->|[<-|Hr]] & Hrel); eauto.
Qed.

Section Offers.

Context {F : FuzzyLib}.

(** The filter returns only elements of the array it is given. *)
Hypothesis filter_selects :
  forall A (input : string) (arr : list A) (extract : A -> string) e,
    In e (fuzzy_filter input arr extract) -> In (normalize e) arr.

Lemma searchProjects_offers q arr :
  exists choices,
    searchProjects Fulfilled q arr = (Normal choices, newProject :: arr) /\
    forall c, In c choices ->
              exists r, In r (newProject :: arr) /\ c_value c = Some (projectId r).
Proof.
  eexists. split; [reflexivity|]. intros c Hc. unfold unshift in Hc.
  apply in_map_iff in Hc as (e & <- & He).
  exists (normalize e). split; [now apply filter_selects in He|].
  now rewrite projectChoice_normalize.
Qed.

Lemma searchApps_offers q arr :
  exists choices,
    searchApps Fulfilled q arr = (Normal choices, newApp :: arr) /\
    forall c, In c choices ->
              exists r, In r (newApp :: arr) /\ shortAppId (Some r) = Normal (c_value c).
Proof.
  destruct (searchApps_answer q arr) as (choices & Hrun & Hall).
  exists choices. split.
  - destruct (searchApps_prepends q arr) as [choices' Hrun'].
    rewrite Hrun' in Hrun |- *. cbn in Hrun. now inversion Hrun.
  - intros c Hc. destruct (@Forall2_In_right _ _ _ _ _ _ Hall Hc) as (e & He & _ & _ & Hv).
    exists (normalize e). split; [now apply filter_selects in He | exact Hv].
Qed.

Lemma searchSites_offers q arr :
  exists choices,
    searchSites Fulfilled q arr = (Normal choices, newSite :: arr) /\
    forall c, In c choices ->
              exists r, In r (newSite :: arr) /\ shortSiteName (Some r) = Normal (c_value c).
Proof.
  destruct (searchSites_answer q arr) as (choices & Hrun & Hall).
  exists choices. split.
  - destruct (searchSites_prepends q arr) as [choices' Hrun'].
    rewrite Hrun' in Hrun |- *. cbn in Hrun. now inversion Hrun.
  - intros c Hc. destruct (@Forall2_In_right _ _ _ _ _ _ Hall Hc) as (e & He & _ & _ & Hv).
    exists (normalize e). split; [now apply filter_selects in He | exact Hv].
Qed.

End Offers.

(** ** The resource flows, step by step *)

Lemma feed_keeps_trace {R} (source : Handler R) (queries : list string) st :
  trace (snd (feed source queries st)) = trace st.
Proof.
  revert st. induction queries as [|q qs IH]; intros st; simpl; [reflexivity|].
  unfold mbind at 1. unfold invoke.
  destruct (source q (cell st)) as [[choices|e] arr]; [|reflexivity].
  unfold mbind. specialize (IH {| cell := arr; trace := trace st |}).
  destruct (feed source qs {| cell := arr; trace := trace st |}) as [[shown|e] st'];
    exact IH.
Qed.

Lemma feed_rejected {R} (source : Handler R) (e : Error) :
  (forall q arr, source q arr = (Throw e, arr)) ->
  forall queries st,
    feed source queries st
    = (match queries with [] => Normal [] | _ :: _ => Throw e end, st).
Proof.
  intros Hsource [|q qs] st; simpl; [reflexivity|].
  unfold mbind, invoke. rewrite Hsource. now destruct st.
Qed.

Section Runs.

Context {F : FuzzyLib} {B : Backend} {U : Renderer}.

Lemma projectPrompt_listed defaultProject options resolved shown st2 :
  projects_list options = Normal resolved ->
  feed (searchProjects Fulfilled) (keystrokes "projectId")
       {| cell := resolved; trace := [ProjectsList options] |} = (Normal shown, st2) ->
  projectPrompt defaultProject options (start _)
  = if strict_eq (select "projectId" defaultProject shown) (Some NEW_OPTION) then
      (match projects_create (input "projectId" None) (account options)
                             (input "displayName" (Some (input "projectId" None))) with
       | Normal created => Normal (Some created)
       | Throw e => Throw e
       end,
       {| cell := cell st2;
          trace := trace st2 ++
                   [ProjectsCreate (input "projectId" None) (account options)
                                   (input "displayName" (Some (input "projectId" None)))] |})
    else
      (Normal (find (fun it => strict_eq (Some (projectId it))
                                         (select "projectId" defaultProject shown))
                    (cell st2)), st2).
Proof.
  intros Hlist Hfeed.
  unfold projectPrompt, mbind at 1. unfold fetch. rewrite Hlist.
  unfold start. cbn [cell trace app].
  unfold mbind at 1. unfold autocomplete, mbind at 1. unfold ret at 1.
  unfold mbind at 1. rewrite Hfeed. unfold ret at 1.
  destruct (strict_eq (select "projectId" defaultProject shown) (Some NEW_OPTION)).
  - unfold mbind, call, ret. cbn [record traced_flow].
    now destruct projects_create.
  - reflexivity.
Qed.

Lemma appPrompt_listed parent defaultAppId options resolved shown st2 :
  apps_list "web" options (projectId parent) = Normal resolved ->
  feed (searchApps Fulfilled) (keystrokes "appId")
       {| cell := resolved; trace := [AppsList "web" options (projectId parent)] |}
  = (Normal shown, st2) ->
  appPrompt parent defaultAppId options (start _)
  = if strict_eq (select "appId" defaultAppId shown) (Some NEW_OPTION) then
      (match apps_create "web" (input "displayName" None) options (projectId parent) with
       | Normal created => Normal (Some created)
       | Throw e => Throw e
       end,
       {| cell := cell st2;
          trace := trace st2 ++
                   [AppsCreate "web" (input "displayName" None) options (projectId parent)] |})
    else
      (findM (fun it => v <- shortAppId (Some it) ;;
                        Normal (strict_eq v (select "appId" defaultAppId shown)))
             (cell st2), st2).
Proof.
  intros Hlist Hfeed.
  unfold appPrompt, mbind at 1. unfold fetch. rewrite Hlist.
  unfold start. cbn [cell trace app].
  unfold mbind at 1. unfold autocomplete, mbind at 1. unfold ret at 1.
  unfold mbind at 1. rewrite Hfeed. unfold ret at 1.
  destruct (strict_eq (select "appId" defaultAppId shown) (Some NEW_OPTION)).
  - unfold mbind, call, ret. cbn [record traced_flow].
    now destruct apps_create.
  - unfold mbind, await, eval. now destruct findM.
Qed.

Lemma sitePrompt_listed parent options listed default shown st2 :
  sites_list options (projectId parent) = Normal listed ->
  shortSiteName (find (fun it => strict_eq (type it) (Some DEFAULT_SITE_TYPE))
                      (sitesOrStub (projectId parent) listed)) = Normal default ->
  feed (searchSites Fulfilled) (keystrokes "siteName")
       {| cell := sitesOrStub (projectId parent) listed;
          trace := [SitesList options (projectId parent)] |}
  = (Normal shown, st2) ->
  sitePrompt parent options (start _)
  = if strict_eq (select "siteName" default shown) (Some NEW_OPTION) then
      (match sites_create (input "subdomain" None) options (projectId parent) with
       | Normal created => Normal (Some created)
       | Throw e => Throw e
       end,
       {| cell := cell st2;
          trace := trace st2 ++
                   [SitesCreate (input "subdomain" None) options (projectId parent)] |})
    else
      (findM (fun it => v <- shortSiteName (Some it) ;;
                        Normal (strict_eq v (select "siteName" default shown)))
             (cell st2), st2).
Proof.
  intros Hlist Hdefault Hfeed.
  unfold sitePrompt, sitePromptSites, mbind at 1. unfold fetch. rewrite Hlist.
  cbn [JS.bind]. unfold start. cbn [cell trace app].
  unfold mbind at 1. unfold autocomplete, mbind at 1.
  unfold mbind at 1. unfold await at 1. unfold eval at 1. cbn [cell].
  rewrite Hdefault.
  unfold mbind at 1. rewrite Hfeed. unfold ret at 1.
  destruct (strict_eq (select "siteName" default shown) (Some NEW_OPTION)).
  - unfold mbind, call, ret. cbn [record traced_flow].
    now destruct sites_create.
  - unfold mbind, await, eval. now destruct findM.
Qed.

Lemma projectPrompt_refused defaultProject options e selected :
  projects_list options = Throw e ->
  (forall d shown, select "projectId" d shown = selected) ->
  selected <> Some NEW_OPTION ->
  projectPrompt defaultProject options (start _)
  = (Throw e, {| cell := []; trace := [ProjectsList options] |}).
Proof.
  intros Hlist Hsel Hnew.
  unfold projectPrompt, mbind at 1. unfold fetch. rewrite Hlist.
  unfold start. cbn [cell trace app].
  unfold mbind at 1. unfold autocomplete, mbind at 1. unfold ret at 1.
  unfold mbind at 1.
  rewrite (feed_rejected (searchProjects (Rejected e)) (e := e)) by reflexivity.
  destruct (keystrokes "projectId"); [|reflexivity].
  unfold ret at 1. rewrite Hsel.
  apply strict_eq_false_iff in Hnew. now rewrite Hnew.
Qed.

Lemma appPrompt_refused parent defaultAppId options e selected :
  apps_list "web" options (projectId parent) = Throw e ->
  (forall d shown, select "appId" d shown = selected) ->
  selected <> Some NEW_OPTION ->
  appPrompt parent defaultAppId options (start _)
  = (Throw e, {| cell := []; trace := [AppsList "web" options (projectId parent)] |}).
Proof.
  intros Hlist Hsel Hnew.
  unfold appPrompt, mbind at 1. unfold fetch. rewrite Hlist.
  unfold start. cbn [cell trace app].
  unfold mbind at 1. unfold autocomplete, mbind at 1. unfold ret at 1.
  unfold mbind at 1.
  rewrite (feed_rejected (searchApps (Rejected e)) (e := e)) by reflexivity.
  destruct (keystrokes "appId"); [|reflexivity].
  unfold ret at 1. rewrite Hsel.
  apply strict_eq_false_iff in Hnew. now rewrite Hnew.
Qed.

Lemma sitePrompt_refused parent options e :
  sites_list options (projectId parent) = Throw e ->
  sitePrompt parent options (start _)
  = (Throw e, {| cell := []; trace := [SitesList options (projectId parent)] |}).
Proof.
  intros Hlist.
  unfold sitePrompt, sitePromptSites, mbind at 1. unfold fetch. rewrite Hlist.
  reflexivity.
Qed.

End Runs.

(** ** Creating a resource *)

(** X4.  In each resource flow whose list call succeeded, selecting the
    sentinel makes exactly one further backend call, the creation: of the
    project with the identifier typed, the account of the options and the
    display name typed at a prompt whose default is that identifier; of a
    [web] app with the display name typed; of the site with the subdomain
    typed.  The flow completes as the creation does, with the created
    resource or its error, and the resolved list is not consulted. *)
Theorem sentinel_selection_creates
    (F : FuzzyLib) (B : Backend) (U : Renderer)
    (defaultProject defaultAppId : option string) (parent : FirebaseProject)
    (options : Options)
    (projects : list FirebaseProject) (apps : list FirebaseApp)
    (sites : list FirebaseHostingSite)
    (HlistP : projects_list options = Normal projects)
    (HlistA : apps_list "web" options (projectId parent) = Normal apps)
    (HlistS : sites_list options (projectId parent) = Normal sites)
    (HselP : forall d shown, select "projectId" d shown = Some NEW_OPTION)
    (HselA : forall d shown, select "appId" d shown = Some NEW_OPTION)
    (HselS : forall d shown, select "siteName" d shown = Some NEW_OPTION) :
  (let id := input "projectId" None in
   let displayName := input "displayName" (Some id) in
   fst (projectPrompt defaultProject options (start _))
   = match projects_create id (account options) displayName with
     | Normal created => Normal (Some created)
     | Throw e => Throw e
     end /\
   trace (snd (projectPrompt defaultProject options (start _)))
   = [ProjectsList options; ProjectsCreate id (account options) displayName]) /\
  (let displayName := input "displayName" None in
   fst (appPrompt parent defaultAppId options (start _))
   = match apps_create "web" displayName options (projectId parent) with
     | Normal created => Normal (Some created)
     | Throw e => Throw e
     end /\
   trace (snd (appPrompt parent defaultAppId options (start _)))
   = [AppsList "web" options (projectId parent);
      AppsCreate "web" displayName options (projectId parent)]) /\
  (let subdomain := input "subdomain" None in
   fst (sitePrompt parent options (start _))
   = match sites_create subdomain options (projectId parent) with
     | Normal created => Normal (Some created)
     | Throw e => Throw e
     end /\
   trace (snd (sitePrompt parent options (start _)))
   = [SitesList options (projectId parent);
      SitesCreate subdomain options (projectId parent)]).
Proof.
  split; [|split]; cbv zeta.
  - destruct (feed_prepends (x := newProject) (searchProjects Fulfilled)
                searchProjects_prepends (keystrokes "projectId")
                {| cell := projects; trace := [ProjectsList options] |}) as [shown Hfeed].
    rewrite (projectPrompt_listed defaultProject options HlistP Hfeed), HselP.
    split; reflexivity.
  - destruct (feed_prepends (x := newApp) (searchApps Fulfilled)
                searchApps_prepends (keystrokes "appId")
                {| cell := apps; trace := [AppsList "web" options (projectId parent)] |})
      as [shown Hfeed].
    rewrite (appPrompt_listed parent defaultAppId options HlistA Hfeed), HselA.
    split; reflexivity.
  - destruct (shortSiteName_complete
                (find (fun it => strict_eq (type it) (Some DEFAULT_SITE_TYPE))
                      (sitesOrStub (projectId parent) sites))) as [dv Hdv].
    destruct (feed_prepends (x := newSite) (searchSites Fulfilled)
                searchSites_prepends (keystrokes "siteName")
                {| cell := sitesOrStub (projectId parent) sites;
                   trace := [SitesList options (projectId parent)] |}) as [shown Hfeed].
    rewrite (sitePrompt_listed parent options HlistS Hdv Hfeed), HselS.
    split; reflexivity.
Qed.

Lemma sentinel_selection_creates_witness :
  fst (@projectPrompt subsequence_fuzzy (serving None [p1] [app1] [site1])
         (scripted [""; "x"] (Some NEW_OPTION)) None noOptions (start _))
  = Normal (Some {| projectId := "projectId"; displayName := "displayName" |}) /\
  trace (snd (@projectPrompt subsequence_fuzzy (serving None [p1] [app1] [site1])
                (scripted [""; "x"] (Some NEW_OPTION)) None noOptions (start _)))
  = [ProjectsList noOptions; ProjectsCreate "projectId" None "displayName"].
Proof.
  exact (proj1 (@sentinel_selection_creates subsequence_fuzzy
                  (serving None [p1] [app1] [site1])
                  (scripted [""; "x"] (Some NEW_OPTION)) None None p1 noOptions
                  [p1] [app1] [site1] eq_refl eq_refl eq_refl
                  (fun _ _ => eq_refl) (fun _ _ => eq_refl) (fun _ _ => eq_refl))).
Defined.

(** ** Selecting an existing resource *)

(** X5.  In each resource flow, selecting a value other than the sentinel
    makes no backend call besides the list call: whether that call succeeds
    or is rejected, and whatever the lookup finds, the list call is the only
    call of the flow. *)
Theorem selecting_existing_only_lists
    (F : FuzzyLib) (B : Backend) (U : Renderer)
    (defaultProject defaultAppId : option string) (parent : FirebaseProject)
    (options : Options)
    (selectedProject selectedApp selectedSite : option string)
    (HselP : forall d shown, select "projectId" d shown = selectedProject)
    (HselA : forall d shown, select "appId" d shown = selectedApp)
    (HselS : forall d shown, select "siteName" d shown = selectedSite)
    (HnewP : selectedProject <> Some NEW_OPTION)
    (HnewA : selectedApp <> Some NEW_OPTION)
    (HnewS : selectedSite <> Some NEW_OPTION) :
  trace (snd (projectPrompt defaultProject options (start _))) = [ProjectsList options] /\
  trace (snd (appPrompt parent defaultAppId options (start _)))
  = [AppsList "web" options (projectId parent)] /\
  trace (snd (sitePrompt parent options (start _)))
  = [SitesList options (projectId parent)].
Proof.
  split; [|split].
  - destruct (projects_list options) as [projects|e] eqn:Hlist.
    + destruct (feed_prepends (x := newProject) (searchProjects Fulfilled)
                  searchProjects_prepends (keystrokes "projectId")
                  {| cell := projects; trace := [ProjectsList options] |}) as [shown Hfeed].
      rewrite (projectPrompt_listed defaultProject options Hlist Hfeed), HselP.
      apply strict_eq_false_iff in HnewP. now rewrite HnewP.
    + now rewrite (projectPrompt_refused defaultProject options Hlist HselP HnewP).
  - destruct (apps_list "web" options (projectId parent)) as [apps|e] eqn:Hlist.
    + destruct (feed_prepends (x := newApp) (searchApps Fulfilled)
                  searchApps_prepends (keystrokes "appId")
                  {| cell := apps; trace := [AppsList "web" options (projectId parent)] |})
        as [shown Hfeed].
      rewrite (appPrompt_listed parent defaultAppId options Hlist Hfeed), HselA.
      apply strict_eq_false_iff in HnewA. now rewrite HnewA.
    + now rewrite (appPrompt_refused parent defaultAppId options Hlist HselA HnewA).
  - destruct (sites_list options (projectId parent)) as [sites|e] eqn:Hlist.
    + destruct (shortSiteName_complete
                  (find (fun it => strict_eq (type it) (Some DEFAULT_SITE_TYPE))
                        (sitesOrStub (projectId parent) sites))) as [dv Hdv].
      destruct (feed_prepends (x := newSite) (searchSites Fulfilled)
                  searchSites_prepends (keystrokes "siteName")
                  {| cell := sitesOrStub (projectId parent) sites;
                     trace := [SitesList options (projectId parent)] |}) as [shown Hfeed].
      rewrite (sitePrompt_listed parent options Hlist Hdv Hfeed), HselS.
      apply strict_eq_false_iff in HnewS. now rewrite HnewS.
    + now rewrite (sitePrompt_refused parent options Hlist).
Qed.

Lemma selecting_existing_only_lists_witness :
  trace (snd (@projectPrompt subsequence_fuzzy (serving None [p1] [app1] [site1])
                (scripted [""; "p"] (Some "p1")) None noOptions (start _)))
  = [ProjectsList noOptions] /\
  trace (snd (@appPrompt subsequence_fuzzy (serving None [p1] [app1] [site1])
                (scripted [""; "p"] (Some "p1")) p1 None noOptions (start _)))
  = [AppsList "web" noOptions "p1"] /\
  trace (snd (@sitePrompt subsequence_fuzzy (serving None [p1] [app1] [site1])
                (scripted [""; "p"] (Some "p1")) p1 noOptions (start _)))
  = [SitesList noOptions "p1"].
Proof.
  apply (@selecting_existing_only_lists subsequence_fuzzy
           (serving None [p1] [app1] [site1]) (scripted [""; "p"] (Some "p1"))
           None None p1 noOptions (Some "p1") (Some "p1") (Some "p1"));
    try reflexivity; discriminate.
Defined.

(** X6.  A rejected list call reaches the caller unchanged: in each resource
    flow whose user selects a value other than the sentinel, the flow raises
    the very error the list call was rejected with. *)
Theorem rejected_list_propagates
    (F : FuzzyLib) (B : Backend) (U : Renderer)
    (defaultProject defaultAppId : option string) (parent : FirebaseProject)
    (options : Options) (eP eA eS : Error)
    (selectedProject selectedApp : option string)
    (HlistP : projects_list options = Throw eP)
    (HlistA : apps_list "web" options (projectId parent) = Throw eA)
    (HlistS : sites_list options (projectId parent) = Throw eS)
    (HselP : forall d shown, select "projectId" d shown = selectedProject)
    (HselA : forall d shown, select "appId" d shown = selectedApp)
    (HnewP : selectedProject <> Some NEW_OPTION)
    (HnewA : selectedApp <> Some NEW_OPTION) :
  fst (projectPrompt defaultProject options (start _)) = Throw eP /\
  fst (appPrompt parent defaultAppId options (start _)) = Throw eA /\
  fst (sitePrompt parent options (start _)) = Throw eS.
Proof.
  rewrite (projectPrompt_refused defaultProject options HlistP HselP HnewP).
  rewrite (appPrompt_refused parent defaultAppId options HlistA HselA HnewA).
  rewrite (sitePrompt_refused parent options HlistS).
  repeat split.
Qed.

Lemma rejected_list_propagates_witness :
  fst (@projectPrompt subsequence_fuzzy (unlisted (BackendError "quota"))
         (scripted ["p"] (Some "p1")) None noOptions (start _))
  = Throw (BackendError "quota") /\
  fst (@appPrompt subsequence_fuzzy (unlisted (BackendError "quota"))
         (scripted ["p"] (Some "p1")) p1 None noOptions (start _))
  = Throw (BackendError "quota") /\
  fst (@sitePrompt subsequence_fuzzy (unlisted (BackendError "quota"))
         (scripted ["p"] (Some "p1")) p1 noOptions (start _))
  = Throw (BackendError "quota").
Proof.
  apply (@rejected_list_propagates subsequence_fuzzy (unlisted (BackendError "quota"))
           (scripted ["p"] (Some "p1")) None None p1 noOptions
           (BackendError "quota") (BackendError "quota") (BackendError "quota")
           (Some "p1") (Some "p1"));
    try reflexivity; discriminate.
Defined.

(** ** A selection taken from the choices shown *)

Lemma find_finds {A} (p : A -> bool) (l : list A) :
  (exists r, In r l /\ p r = true) ->
  exists y, find p l = Some y /\ In y l /\ p y = true.
Proof.
  intros (r & Hr & Hp). induction l as [|x l IH]; [now destruct Hr|]. simpl.
  destruct (p x) eqn:Hx.
  - exists x. auto.
  - destruct Hr as [->|Hr]; [congruence|].
    destruct (IH Hr) as (y & Hy & Hin & Hpy). exists y. auto.
Qed.

Lemma findM_finds {A} (p : A -> Completion bool) (l : list A) :
  (forall x, exists b, p x = Normal b) ->
  (exists r, In r l /\ p r = Normal true) ->
  exists y, findM p l = Normal (Some y) /\ In y l /\ p y = Normal true.
Proof.
  intros Htotal (r & Hr & Hp). induction l as [|x l IH]; [now destruct Hr|]. simpl.
  destruct (Htotal x) as [[|] Hx]; rewrite Hx; simpl.
  - exists x. auto.
  - destruct Hr as [->|Hr]; [congruence|].
    destruct (IH Hr) as (y & Hy & Hin & Hpy). exists y. auto.
Qed.

Lemma app_predicate_total selected (it : FirebaseApp) :
  exists b, (v <- shortAppId (Some it) ;; Normal (strict_eq v selected)) = Normal b.
Proof. destruct (shortAppId_complete (Some it)) as [v ->]. simpl. eauto. Qed.

Lemma site_predicate_total selected (it : FirebaseHostingSite) :
  exists b, (v <- shortSiteName (Some it) ;; Normal (strict_eq v selected)) = Normal b.
Proof. destruct (shortSiteName_complete (Some it)) as [v ->]. simpl. eauto. Qed.

Lemma offered_value shown (v : option string) :
  In v (map c_value (concat shown)) ->
  exists choices c, In choices shown /\ In c choices /\ c_value c = v.
Proof.
  intros H. apply in_map_iff in H as (c & Hv & Hc).
  apply in_concat in Hc as (choices & Hchoices & Hc). eauto.
Qed.

Lemma subsequence_filter_from_selects {A} (pattern : string) (extract : A -> string)
    (arr : list A) (idx : nat) e :
  In e (subsequence_filter_from idx pattern arr extract) -> In (normalize e) arr.
Proof.
  revert idx. induction arr as [|el rest IH]; intros idx; simpl; [auto|].
  destruct (subsequence pattern (extract el)).
  - intros [<-|H]; [now left | right; eauto].
  - intros H. right. eauto.
Qed.

Lemma subsequence_fuzzy_selects A (input : string) (arr : list A) (extract : A -> string) e :
  In e (@fuzzy_filter subsequence_fuzzy A input arr extract) -> In (normalize e) arr.
Proof. apply subsequence_filter_from_selects. Qed.

(** X7.  With a filter that returns only elements of the array it is given,
    a project flow whose user selects the value of any choice shown, other
    than the sentinel, returns a listed project carrying exactly that
    identifier: the lookup cannot come back empty. *)
Theorem offered_project_is_found
    (F : FuzzyLib) (B : Backend) (U : Renderer)
    (defaultProject : option string) (options : Options)
    (resolved : list FirebaseProject) (shown : list (list Choice))
    (Hfilter : forall A (input : string) (arr : list A) (extract : A -> string) e,
        In e (fuzzy_filter input arr extract) -> In (normalize e) arr)
    (Hlist : projects_list options = Normal resolved)
    (Hshown : fst (feed (searchProjects Fulfilled) (keystrokes "projectId")
                        {| cell := resolved; trace := [ProjectsList options] |})
              = Normal shown)
    (Hoffered : In (select "projectId" defaultProject shown) (map c_value (concat shown)))
    (Hnew : select "projectId" defaultProject shown <> Some NEW_OPTION) :
  exists r,
    fst (projectPrompt defaultProject options (start _)) = Normal (Some r) /\
    In r resolved /\
    Some (projectId r) = select "projectId" defaultProject shown.
Proof.
  destruct (feed_offers (x := newProject) (searchProjects Fulfilled)
              (fun r c => c_value c = Some (projectId r))
              (searchProjects_offers Hfilter) (keystrokes "projectId")
              {| cell := resolved; trace := [ProjectsList options] |})
    as (shown' & Hfeed & Hstand).
  rewrite Hfeed in Hshown. cbn in Hshown. inversion Hshown; subst shown'.
  rewrite (projectPrompt_listed defaultProject options Hlist Hfeed).
  set (selected := select "projectId" defaultProject shown) in *.
  pose proof Hnew as Hneq. apply strict_eq_false_iff in Hneq. rewrite Hneq.
  cbn [fst cell].
  rewrite find_skip_repeat
    by (apply strict_eq_false_iff; cbn [projectId newProject]; congruence).
  destruct (@offered_value shown _ Hoffered) as (choices & c & Hchoices & Hc & Hv).
  destruct (Hstand choices c Hchoices Hc) as (r & [->|Hr] & Hrel).
  - cbn [projectId newProject] in Hrel. congruence.
  - cbn [cell] in Hr.
    destruct (find_finds (fun it => strict_eq (Some (projectId it)) selected) resolved)
      as (y & Hfind & Hin & Hy).
    + exists r. split; [exact Hr|]. apply strict_eq_true_iff. congruence.
    + exists y. rewrite Hfind. repeat split; auto. now apply strict_eq_true_iff.
Qed.

Lemma offered_project_is_found_witness :
  exists r,
    fst (@projectPrompt subsequence_fuzzy (serving None [projectAbcd; projectAbc] [] [])
           (taking_last ["abc"]) None noOptions (start _)) = Normal (Some r) /\
    In r [projectAbcd; projectAbc] /\
    Some (projectId r) = Some "abc".
Proof.
  apply (@offered_project_is_found subsequence_fuzzy
           (serving None [projectAbcd; projectAbc] [] []) (taking_last ["abc"])
           None noOptions [projectAbcd; projectAbc]
           [[projectChoice (Raw projectAbcd); projectChoice (Raw projectAbc)]]
           subsequence_fuzzy_selects);
    try reflexivity; vm_compute; [auto | discriminate].
Defined.

(** X8.  With a filter that returns only elements of the array it is given,
    an app flow whose user selects the value of any choice shown, other than
    the sentinel, returns a listed app whose short identifier is exactly that
    value. *)
Theorem offered_app_is_found
    (F : FuzzyLib) (B : Backend) (U : Renderer)
    (parent : FirebaseProject) (defaultAppId : option string) (options : Options)
    (resolved : list FirebaseApp) (shown : list (list Choice))
    (Hfilter : forall A (input : string) (arr : list A) (extract : A -> string) e,
        In e (fuzzy_filter input arr extract) -> In (normalize e) arr)
    (Hlist : apps_list "web" options (projectId parent) = Normal resolved)
    (Hshown : fst (feed (searchApps Fulfilled) (keystrokes "appId")
                        {| cell := resolved;
                           trace := [AppsList "web" options (projectId parent)] |})
              = Normal shown)
    (Hoffered : In (select "appId" defaultAppId shown) (map c_value (concat shown)))
    (Hnew : select "appId" defaultAppId shown <> Some NEW_OPTION) :
  exists r,
    fst (appPrompt parent defaultAppId options (start _)) = Normal (Some r) /\
    In r resolved /\
    shortAppId (Some r) = Normal (select "appId" defaultAppId shown).
Proof.
  destruct (feed_offers (x := newApp) (searchApps Fulfilled)
              (fun r c => shortAppId (Some r) = Normal (c_value c))
              (searchApps_offers Hfilter) (keystrokes "appId")
              {| cell := resolved; trace := [AppsList "web" options (projectId parent)] |})
    as (shown' & Hfeed & Hstand).
  rewrite Hfeed in Hshown. cbn in Hshown. inversion Hshown; subst shown'.
  rewrite (appPrompt_listed parent defaultAppId options Hlist Hfeed).
  set (selected := select "appId" defaultAppId shown) in *.
  pose proof Hnew as Hneq. apply strict_eq_false_iff in Hneq. rewrite Hneq.
  cbn [fst cell].
  rewrite findM_skip_repeat.
  2:{ apply (app_matches_iff newApp selected false). intros H. apply Hnew.
      vm_compute in H. now inversion H. }
  destruct (@offered_value shown _ Hoffered) as (choices & c & Hchoices & Hc & Hv).
  destruct (Hstand choices c Hchoices Hc) as (r & [->|Hr] & Hrel).
  - assert (Hs : shortAppId (Some newApp) = Normal (Some NEW_OPTION)) by reflexivity.
    rewrite Hs in Hrel. inversion Hrel. congruence.
  - cbn [cell] in Hr.
    destruct (findM_finds
                (fun it => v <- shortAppId (Some it) ;; Normal (strict_eq v selected))
                resolved (app_predicate_total selected))
      as (y & Hfind & Hin & Hy).
    + exists r. split; [exact Hr|]. apply (app_matches_iff r selected true). congruence.
    + exists y. rewrite Hfind. repeat split; auto.
      now apply (app_matches_iff y selected true).
Qed.

Lemma offered_app_is_found_witness :
  exists r,
    fst (@appPrompt subsequence_fuzzy (serving None [] [appAbcd; appAbc] [])
           (taking_last ["E"]) p1 None noOptions (start _)) = Normal (Some r) /\
    In r [appAbcd; appAbc] /\
    shortAppId (Some r) = Normal (Some "abc").
Proof.
  apply (@offered_app_is_found subsequence_fuzzy
           (serving None [] [appAbcd; appAbc] []) (taking_last ["E"])
           p1 None noOptions [appAbcd; appAbc]
           [[createAppChoice;
             {| c_name := "Exact"; c_title := "Exact"; c_value := Some "abc" |}]]
           subsequence_fuzzy_selects);
    try reflexivity; vm_compute; [auto | discriminate].
Defined.

(** X9.  With a filter that returns only elements of the array it is given,
    a site flow whose user selects the value of any choice shown, other than
    the sentinel, returns a site of the resolved array, the listed sites or
    the stub, whose short name is exactly that value. *)
Theorem offered_site_is_found
    (F : FuzzyLib) (B : Backend) (U : Renderer)
    (parent : FirebaseProject) (options : Options)
    (listed : list FirebaseHostingSite) (default : option string)
    (shown : list (list Choice))
    (Hfilter : forall A (input : string) (arr : list A) (extract : A -> string) e,
        In e (fuzzy_filter input arr extract) -> In (normalize e) arr)
    (Hlist : sites_list options (projectId parent) = Normal listed)
    (Hdefault : shortSiteName
                  (find (fun it => strict_eq (type it) (Some DEFAULT_SITE_TYPE))
                        (sitesOrStub (projectId parent) listed)) = Normal default)
    (Hshown : fst (feed (searchSites Fulfilled) (keystrokes "siteName")
                        {| cell := sitesOrStub (projectId parent) listed;
                           trace := [SitesList options (projectId parent)] |})
              = Normal shown)
    (Hoffered : In (select "siteName" default shown) (map c_value (concat shown)))
    (Hnew : select "siteName" default shown <> Some NEW_OPTION) :
  exists r,
    fst (sitePrompt parent options (start _)) = Normal (Some r) /\
    In r (sitesOrStub (projectId parent) listed) /\
    shortSiteName (Some r) = Normal (select "siteName" default shown).
Proof.
  destruct (feed_offers (x := newSite) (searchSites Fulfilled)
              (fun r c => shortSiteName (Some r) = Normal (c_value c))
              (searchSites_offers Hfilter) (keystrokes "siteName")
              {| cell := sitesOrStub (projectId parent) listed;
                 trace := [SitesList options (projectId parent)] |})
    as (shown' & Hfeed & Hstand).
  rewrite Hfeed in Hshown. cbn in Hshown. inversion Hshown; subst shown'.
  rewrite (sitePrompt_listed parent options Hlist Hdefault Hfeed).
  set (selected := select "siteName" default shown) in *.
  pose proof Hnew as Hneq. apply strict_eq_false_iff in Hneq. rewrite Hneq.
  cbn [fst cell].
  rewrite findM_skip_repeat.
  2:{ apply (site_matches_iff newSite selected false). intros H. apply Hnew.
      vm_compute in H. now inversion H. }
  destruct (@offered_value shown _ Hoffered) as (choices & c & Hchoices & Hc & Hv).
  destruct (Hstand choices c Hchoices Hc) as (r & [->|Hr] & Hrel).
  - assert (Hs : shortSiteName (Some newSite) = Normal (Some NEW_OPTION)) by reflexivity.
    rewrite Hs in Hrel. inversion Hrel. congruence.
  - cbn [cell] in Hr.
    destruct (findM_finds
                (fun it => v <- shortSiteName (Some it) ;; Normal (strict_eq v selected))
                (sitesOrStub (projectId parent) listed) (site_predicate_total selected))
      as (y & Hfind & Hin & Hy).
    + exists r. split; [exact Hr|]. apply (site_matches_iff r selected true). congruence.
    + exists y. rewrite Hfind. repeat split; auto.
      now apply (site_matches_iff y selected true).
Qed.

Lemma offered_site_is_found_witness :
  exists r,
    fst (@sitePrompt subsequence_fuzzy (serving None [] [] [siteAbcd; siteAbc])
           (taking_last ["abc"]) p1 noOptions (start _)) = Normal (Some r) /\
    In r (sitesOrStub "p1" [siteAbcd; siteAbc]) /\
    shortSiteName (Some r) = Normal (Some "abc").
Proof.
  apply (@offered_site_is_found subsequence_fuzzy
           (serving None [] [] [siteAbcd; siteAbc]) (taking_last ["abc"])
           p1 noOptions [siteAbcd; siteAbc] (Some "abc")
           [[{| c_name := "https://abcd.web.app"; c_title := "https://abcd.web.app";
                c_value := Some "abcd" |};
             {| c_name := "https://abc.web.app"; c_title := "https://abc.web.app";
                c_value := Some "abc" |}]]
           subsequence_fuzzy_selects);
    try reflexivity; vm_compute; [auto | discriminate].
Defined.

(** ** The default of the site prompt *)

Lemma shortSiteName_plain (t u : string) (ty a : option string) :
  has_char slash t = false ->
  shortSiteName (Some {| name := Some t; defaultUrl := u; type := ty; siteAppId := a |})
  = Normal (Some t).
Proof.
  intros Ht. unfold shortSiteName. cbn [chain_name read_name name].
  apply short_value_stable. right. now exists t.
Qed.

Lemma sitePrompt_default_lookup {F : FuzzyLib} {B : Backend} {U : Renderer}
    parent options listed before s after v :
  sites_list options (projectId parent) = Normal listed ->
  sitesOrStub (projectId parent) listed = before ++ s :: after ->
  type s = Some DEFAULT_SITE_TYPE ->
  (forall x, In x before ->
             type x <> Some DEFAULT_SITE_TYPE /\ shortSiteName (Some x) <> Normal v) ->
  shortSiteName (Some s) = Normal v ->
  v <> Some NEW_OPTION ->
  (forall d shown, select "siteName" d shown = d) ->
  fst (sitePrompt parent options (start _)) = Normal (Some s).
Proof.
  intros Hlist Hpool Htype Hbefore Hshort Hnew Haccept.
  assert (Hdefault : shortSiteName
                       (find (fun it => strict_eq (type it) (Some DEFAULT_SITE_TYPE))
                             (sitesOrStub (projectId parent) listed)) = Normal v).
  { rewrite Hpool, find_first; [exact Hshort| |now apply strict_eq_true_iff].
    intros x Hx. apply strict_eq_false_iff. now apply Hbefore. }
  destruct (feed_prepends (x := newSite) (searchSites Fulfilled)
              searchSites_prepends (keystrokes "siteName")
              {| cell := sitesOrStub (projectId parent) listed;
                 trace := [SitesList options (projectId parent)] |}) as [shown Hfeed].
  rewrite (sitePrompt_listed parent options Hlist Hdefault Hfeed), Haccept.
  pose proof Hnew as Hneq. apply strict_eq_false_iff in Hneq. rewrite Hneq.
  cbn [fst cell].
  rewrite findM_skip_repeat.
  2:{ apply (site_matches_iff newSite v false). intros H. apply Hnew.
      assert (Hs : shortSiteName (Some newSite) = Normal (Some NEW_OPTION)) by reflexivity.
      rewrite Hs in H. now inversion H. }
  rewrite Hpool. apply findM_first.
  - intros x Hx. apply (site_matches_iff x v false). now apply Hbefore.
  - now apply (site_matches_iff s v true).
Qed.

(** X10.  The site prompt preselects the default site: when the user accepts
    the default, the flow returns the first site of type [DEFAULT_SITE] of the
    resolved array, provided no site before it shares its short name and that
    short name is not the sentinel. *)
Theorem default_site_is_preselected
    (F : FuzzyLib) (B : Backend) (U : Renderer)
    (parent : FirebaseProject) (options : Options)
    (listed before after : list FirebaseHostingSite) (s : FirebaseHostingSite)
    (v : option string)
    (Hlist : sites_list options (projectId parent) = Normal listed)
    (Hpool : sitesOrStub (projectId parent) listed = before ++ s :: after)
    (Htype : type s = Some DEFAULT_SITE_TYPE)
    (Hbefore : forall x, In x before ->
                         type x <> Some DEFAULT_SITE_TYPE /\
                         shortSiteName (Some x) <> Normal v)
    (Hshort : shortSiteName (Some s) = Normal v)
    (Hnew : v <> Some NEW_OPTION)
    (Haccept : forall d shown, select "siteName" d shown = d) :
  fst (sitePrompt parent options (start _)) = Normal (Some s).
Proof.
  exact (@sitePrompt_default_lookup F B U parent options listed before s after v
           Hlist Hpool Htype Hbefore Hshort Hnew Haccept).
Qed.

Lemma default_site_is_preselected_witness :
  fst (@sitePrompt subsequence_fuzzy (serving None [] [] [siteAbcd; siteAbc])
         (accepting [""; "a"]) p1 noOptions (start _)) = Normal (Some siteAbc).
Proof.
  apply (@default_site_is_preselected subsequence_fuzzy
           (serving None [] [] [siteAbcd; siteAbc]) (accepting [""; "a"])
           p1 noOptions [siteAbcd; siteAbc] [siteAbcd] [] siteAbc (Some "abc"));
    try reflexivity; try discriminate.
  intros x [<-|[]]. split; vm_compute; discriminate.
Defined.

(** X11.  For a project that reports no site and whose identifier has no
    slash and is not the sentinel, accepting the default of the site prompt
    returns the stub of the default site: its name is the project
    identifier, its URL [https://{projectId}.web.app], its type
    [DEFAULT_SITE]. *)
Theorem fresh_project_gets_default_site
    (F : FuzzyLib) (B : Backend) (U : Renderer)
    (parent : FirebaseProject) (options : Options)
    (Hlist : sites_list options (projectId parent) = Normal [])
    (Hplain : has_char slash (projectId parent) = false)
    (Hnew : projectId parent <> NEW_OPTION)
    (Haccept : forall d shown, select "siteName" d shown = d) :
  fst (sitePrompt parent options (start _))
  = Normal (Some {| name := Some (projectId parent);
                    defaultUrl := String.append "https://"
                                    (String.append (projectId parent) ".web.app");
                    type := Some DEFAULT_SITE_TYPE;
                    siteAppId := None |}).
Proof.
  apply (@sitePrompt_default_lookup F B U parent options [] [] _ []
           (Some (projectId parent)) Hlist).
  - reflexivity.
  - reflexivity.
  - now intros x [].
  - now apply shortSiteName_plain.
  - congruence.
  - exact Haccept.
Qed.

Lemma fresh_project_gets_default_site_witness :
  fst (@sitePrompt subsequence_fuzzy (serving None [] [] [])
         (accepting [""; "a"]) p1 noOptions (start _))
  = Normal (Some {| name := Some "p1"; defaultUrl := "https://p1.web.app";
                    type := Some DEFAULT_SITE_TYPE; siteAppId := None |}).
Proof.
  apply (@fresh_project_gets_default_site subsequence_fuzzy (serving None [] [] [])
           (accepting [""; "a"]) p1 noOptions);
    try reflexivity; discriminate.
Defined.

(** ** The resolved array over a run of queries *)

Lemma feed_answers_count {R} (source : Handler R) queries :
  forall st shown st', feed source queries st = (Normal shown, st') ->
                       length shown = length queries.
Proof.
  induction queries as [|q qs IH]; intros st shown st'; simpl.
  - unfold ret. intros H. now inversion H.
  - unfold mbind at 1. unfold invoke.
    destruct (source q (cell st)) as [[choices|e] arr]; [|discriminate].
    unfold mbind.
    destruct (feed source qs {| cell := arr; trace := trace st |}) as [[rest|e] st2] eqn:E;
      [|discriminate].
    unfold ret. intros H. inversion H. simpl. f_equal. exact (IH _ _ _ E).
Qed.

(** X12.  Over the queries of one prompt, each adapter of a fulfilled promise
    answers every query, one answer per query text, and leaves the array the
    promise resolved to with one create-new record per query put before the
    records it held, which keep their order. *)
Theorem resolved_array_gains_one_record_per_query (F : FuzzyLib) (queries : list string)
    (projects : list FirebaseProject) (apps : list FirebaseApp)
    (sites : list FirebaseHostingSite) (calls : list Call) :
  (exists shown,
     feed (searchProjects Fulfilled) queries {| cell := projects; trace := calls |}
     = (Normal shown,
        {| cell := repeat newProject (length queries) ++ projects; trace := calls |}) /\
     length shown = length queries) /\
  (exists shown,
     feed (searchApps Fulfilled) queries {| cell := apps; trace := calls |}
     = (Normal shown,
        {| cell := repeat newApp (length queries) ++ apps; trace := calls |}) /\
     length shown = length queries) /\
  (exists shown,
     feed (searchSites Fulfilled) queries {| cell := sites; trace := calls |}
     = (Normal shown,
        {| cell := repeat newSite (length queries) ++ sites; trace := calls |}) /\
     length shown = length queries).
Proof.
  split; [|split].
  - destruct (feed_prepends (x := newProject) (searchProjects Fulfilled)
                searchProjects_prepends queries {| cell := projects; trace := calls |})
      as [shown Hfeed].
    exists shown. split; [exact Hfeed | exact (feed_answers_count _ _ _ Hfeed)].
  - destruct (feed_prepends (x := newApp) (searchApps Fulfilled)
                searchApps_prepends queries {| cell := apps; trace := calls |})
      as [shown Hfeed].
    exists shown. split; [exact Hfeed | exact (feed_answers_count _ _ _ Hfeed)].
  - destruct (feed_prepends (x := newSite) (searchSites Fulfilled)
                searchSites_prepends queries {| cell := sites; trace := calls |})
      as [shown Hfeed].
    exists shown. split; [exact Hfeed | exact (feed_answers_count _ _ _ Hfeed)].
Qed.

(** ** The account flow with stored accounts *)

Lemma find_map_first {A B} (g : A -> B) (p : B -> bool) (before after : list A) (r : A) :
  (forall x, In x before -> p (g x) = false) -> p (g r) = true ->
  find p (map g (before ++ r :: after)) = Some (g r).
Proof.
  intros Hbefore Hr. rewrite map_app. simpl. apply find_first; [|exact Hr].
  intros y Hy. apply in_map_iff in Hy as (x & <- & Hx). now apply Hbefore.
Qed.

(** X13.  When accounts are stored and the login with the options completes,
    picking one of the accounts makes [userPrompt] return that account after
    two backend calls, the listing and that login: no bare login is made and
    no account is added. *)
Theorem picked_account_is_returned (B : Backend) (U : Renderer) (options : Options)
    (u : UserEntry) (others : list UserEntry) (current picked : Account)
    (Hlist : login_list = Normal (Some (u :: others)))
    (Hcurrent : login (Some options) = Normal current)
    (Hpick : forall choices default, pick "user" choices default = UAccount picked) :
  userPrompt options [] = (Normal (UAccount picked), [LoginList; Login (Some options)]).
Proof.
  unfold userPrompt, mbind, call, ret. cbn [record traced_calls app].
  rewrite Hlist. cbn [length Nat.eqb]. now rewrite Hcurrent, Hpick.
Qed.

Lemma picked_account_is_returned_witness :
  @userPrompt (serving (Some [alice; second]) [] [] [])
    (picking (UAccount (user alice))) noOptions []
  = (Normal (UAccount (user alice)), [LoginList; Login (Some noOptions)]).
Proof.
  exact (@picked_account_is_returned (serving (Some [alice; second]) [] [] [])
           (picking (UAccount (user alice))) noOptions alice [second]
           {| email := "second@example.com" |} (user alice)
           eq_refl eq_refl (fun _ _ => eq_refl)).
Defined.

(** X14.  When accounts are stored and the login with the options completes,
    picking the entry for another account makes [userPrompt] call
    [login.add] as its third and last backend call and complete as that call
    does, returning the account it added. *)
Theorem another_account_is_added (B : Backend) (U : Renderer) (options : Options)
    (u : UserEntry) (others : list UserEntry) (current : Account)
    (Hlist : login_list = Normal (Some (u :: others)))
    (Hcurrent : login (Some options) = Normal current)
    (Hpick : forall choices default, pick "user" choices default = UString NEW_OPTION) :
  snd (userPrompt options []) = [LoginList; Login (Some options); LoginAdd] /\
  fst (userPrompt options [])
  = match login_add with
    | Normal added => Normal (UAccount (user added))
    | Throw e => Throw e
    end.
Proof.
  unfold userPrompt, mbind, call, ret. cbn [record traced_calls app].
  rewrite Hlist. cbn [length Nat.eqb]. rewrite Hcurrent, Hpick.
  assert (Hnew : (NEW_OPTION =? NEW_OPTION)%string = true) by reflexivity.
  rewrite Hnew. now destruct login_add.
Qed.

Lemma another_account_is_added_witness :
  snd (@userPrompt (serving (Some [alice]) [] [] []) (picking (UString NEW_OPTION))
         noOptions [])
  = [LoginList; Login (Some noOptions); LoginAdd] /\
  fst (@userPrompt (serving (Some [alice]) [] [] []) (picking (UString NEW_OPTION))
         noOptions [])
  = Normal (UAccount {| email := "added@example.com" |}).
Proof.
  exact (@another_account_is_added (serving (Some [alice]) [] [] [])
           (picking (UString NEW_OPTION)) noOptions alice []
           {| email := "second@example.com" |} eq_refl eq_refl (fun _ _ => eq_refl)).
Defined.

(** X15.  The account prompt preselects the current account: when the user
    accepts the default, [userPrompt] returns the first stored account whose
    email equals the email of the account the login with the options
    returned. *)
Theorem current_account_is_preselected (B : Backend) (U : Renderer) (options : Options)
    (before after : list UserEntry) (u : UserEntry) (current : Account)
    (Hlist : login_list = Normal (Some (before ++ u :: after)))
    (Hcurrent : login (Some options) = Normal current)
    (Hsame : email (user u) = email current)
    (Hbefore : forall x, In x before -> email (user x) <> email current)
    (Haccept : forall choices v, pick "user" choices (Some v) = v) :
  userPrompt options [] = (Normal (UAccount (user u)), [LoginList; Login (Some options)]).
Proof.
  unfold userPrompt, mbind, call, ret. cbn [record traced_calls app].
  rewrite Hlist.
  assert (Hlen : Nat.eqb (length (before ++ u :: after)) 0 = false)
    by (now destruct before).
  rewrite Hlen, Hcurrent.
  rewrite (find_map_first
             (fun u0 => {| u_name := email (user u0); u_value := UAccount (user u0) |})
             (fun it => match u_value it with
                        | UAccount a => (email a =? email current)%string
                        | UString _ => false
                        end)).
  - cbn [option_map u_value]. now rewrite Haccept.
  - intros x Hx. cbn [u_value]. apply String.eqb_neq. now apply Hbefore.
  - cbn [u_value]. now apply String.eqb_eq.
Qed.

Lemma current_account_is_preselected_witness :
  @userPrompt (serving (Some [alice; second]) [] [] []) (accepting []) noOptions []
  = (Normal (UAccount (user second)), [LoginList; Login (Some noOptions)]).
Proof.
  apply (@current_account_is_preselected (serving (Some [alice; second]) [] [] [])
           (accepting []) noOptions [alice] [] second {| email := "second@example.com" |});
    try reflexivity.
  intros x [<-|[]]. discriminate.
Defined.

(** X16.  A rejected account listing, and a rejected bare login when no
    account is stored, reach the caller of [userPrompt] unchanged and end the
    flow at once: the login with the options is never made. *)
Theorem account_errors_end_the_flow (B : Backend) (U : Renderer) (options : Options)
    (e : Error)
    (Hfails : login_list = Throw e \/
              ((login_list = Normal None \/ login_list = Normal (Some [])) /\
               login None = Throw e)) :
  fst (userPrompt options []) = Throw e /\
  ~ In (Login (Some options)) (snd (userPrompt options [])) /\
  ~ In LoginAdd (snd (userPrompt options [])).
Proof.
  unfold userPrompt, mbind, call, ret. cbn [record traced_calls app].
  destruct Hfails as [-> | [[-> | ->] Hfirst]]; cbn [length Nat.eqb fst snd];
    try rewrite Hfirst; cbn [fst snd];
    (split; [reflexivity|]); split; intros H; simpl in H;
    repeat (destruct H as [H|H]; try discriminate H); exact H.
Qed.

Lemma account_errors_end_the_flow_witness :
  fst (@userPrompt (locked (BackendError "offline")) (scripted [] None) noOptions [])
  = Throw (BackendError "offline") /\
  ~ In (Login (Some noOptions))
       (snd (@userPrompt (locked (BackendError "offline")) (scripted [] None) noOptions [])) /\
  ~ In LoginAdd
       (snd (@userPrompt (locked (BackendError "offline")) (scripted [] None) noOptions [])).
Proof.
  exact (@account_errors_end_the_flow (locked (BackendError "offline")) (scripted [] None)
           noOptions (BackendError "offline")
           (or_intror (conj (or_intror eq_refl) eq_refl))).
Defined.

(** ** An empty query after earlier queries *)

Lemma feed_snoc {R} (source : Handler R) (queries : list string) (q : string) :
  forall st shown st1 choices arr,
    feed source queries st = (Normal shown, st1) ->
    source q (cell st1) = (Normal choices, arr) ->
    feed source (queries ++ [q]) st
    = (Normal (shown ++ [choices]), {| cell := arr; trace := trace st1 |}).
Proof.
  induction queries as [|q0 qs IH]; intros st shown st1 choices arr; simpl.
  - unfold ret at 1. intros H Hq. inversion H; subst.
    unfold mbind, invoke, ret. now rewrite Hq.
  - unfold mbind at 1 3. unfold invoke.
    destruct (source q0 (cell st)) as [[c0|e] arr0]; [|discriminate].
    unfold mbind.
    destruct (feed source qs {| cell := arr0; trace := trace st |})
      as [[rest|e] st'] eqn:E; [|discriminate].
    unfold ret. intros H Hq. inversion H; subst.
    now rewrite (IH _ _ _ _ _ E Hq).
Qed.

Lemma Forall2_repeat_left {A B} (f : A -> Completion B) (x : A) (y : B) (n : nat) ys :
  f x = Normal y ->
  Forall2 (fun a c => f a = Normal c) (repeat x n) ys -> ys = repeat y n.
Proof.
  intros Hx. revert ys. induction n as [|n IH]; simpl; intros ys H.
  - now inversion H.
  - inversion H as [|a c l cs Hhead Htail]; subst. f_equal; [congruence | now apply IH].
Qed.

Lemma searchProjects_keeping_all {F : FuzzyLib} (n : nat) projects :
  map normalize
      (fuzzy_filter "" (newProject :: repeat newProject n ++ projects) extractProject)
  = newProject :: repeat newProject n ++ projects ->
  searchProjects Fulfilled "" (repeat newProject n ++ projects)
  = (Normal (repeat createProjectChoice (S n) ++
             map (fun p => {| c_name := displayName p; c_title := displayName p;
                              c_value := Some (projectId p) |}) projects),
     newProject :: repeat newProject n ++ projects).
Proof.
  intros Hall. rewrite searchProjects_run, Hall. f_equal. f_equal.
  cbn [map repeat app]. f_equal. rewrite map_app, map_repeat. reflexivity.
Qed.

Lemma searchApps_keeping_all {F : FuzzyLib} (n : nat) apps :
  map normalize (fuzzy_filter "" (newApp :: repeat newApp n ++ apps) appDisplayName)
  = newApp :: repeat newApp n ++ apps ->
  exists rest,
    searchApps Fulfilled "" (repeat newApp n ++ apps)
    = (Normal (repeat createAppChoice (S n) ++ rest), newApp :: repeat newApp n ++ apps) /\
    Forall2 (fun a c => c_name c = appDisplayName a /\ c_title c = appDisplayName a /\
                        shortAppId (Some a) = Normal (c_value c)) apps rest.
Proof.
  intros Hkept.
  destruct (searchApps_run "" (repeat newApp n ++ apps)) as (choices & Hrun & Hall).
  rewrite Hkept in Hall.
  change (newApp :: repeat newApp n ++ apps) with (repeat newApp (S n) ++ apps) in Hall.
  apply Forall2_app_inv_l in Hall as (front & rest & Hfront & Hrest & ->).
  apply (Forall2_repeat_left (fun a => appChoice (Raw a)) newApp (y := createAppChoice))
    in Hfront;
    [|reflexivity].
  subst front. exists rest. split; [exact Hrun|].
  eapply Forall2_impl; [|exact Hrest]. intros a c H.
  destruct (appChoice_fields _ H) as (Hname & Htitle & Hvalue). cbn [normalize] in *.
  repeat split; congruence.
Qed.

Lemma searchSites_keeping_all {F : FuzzyLib} (n : nat) sites :
  map normalize (fuzzy_filter "" (newSite :: repeat newSite n ++ sites) defaultUrl)
  = newSite :: repeat newSite n ++ sites ->
  exists rest,
    searchSites Fulfilled "" (repeat newSite n ++ sites)
    = (Normal (repeat createSiteChoice (S n) ++ rest),
       newSite :: repeat newSite n ++ sites) /\
    Forall2 (fun s c => c_name c = defaultUrl s /\ c_title c = defaultUrl s /\
                        shortSiteName (Some s) = Normal (c_value c)) sites rest.
Proof.
  intros Hkept.
  destruct (searchSites_run "" (repeat newSite n ++ sites)) as (choices & Hrun & Hall).
  rewrite Hkept in Hall.
  change (newSite :: repeat newSite n ++ sites) with (repeat newSite (S n) ++ sites) in Hall.
  apply Forall2_app_inv_l in Hall as (front & rest & Hfront & Hrest & ->).
  apply (Forall2_repeat_left (fun a => siteChoice (Raw a)) newSite (y := createSiteChoice))
    in Hfront;
    [|reflexivity].
  subst front. exists rest. split; [exact Hrun|].
  eapply Forall2_impl; [|exact Hrest]. intros a c H.
  destruct (siteChoice_fields _ H) as (Hname & Htitle & Hvalue). cbn [normalize] in *.
  repeat split; congruence.
Qed.

(** C5: the code does otherwise.  Where the filter returns every element of
    the array in order, the answer to an empty query lists, after the
    create-new choices, one choice per listed candidate in the listed order,
    showing its display text and carrying its short identifier; but the
    create-new choice comes once more for every query the same prompt
    answered before, since each of those left a create-new record in the
    array.  Only the first answer has exactly one.  On the apps [app1], the
    second of two empty queries is answered with two create-new choices
    before the choice of [app1]. *)
Theorem empty_query_answer_after_earlier_queries (F : FuzzyLib)
    (earlier : list string) (calls : list Call)
    (projects : list FirebaseProject) (apps : list FirebaseApp)
    (sites : list FirebaseHostingSite)
    (Hp : map normalize
            (fuzzy_filter "" (newProject :: repeat newProject (length earlier) ++ projects)
                          extractProject)
          = newProject :: repeat newProject (length earlier) ++ projects)
    (Ha : map normalize
            (fuzzy_filter "" (newApp :: repeat newApp (length earlier) ++ apps)
                          appDisplayName)
          = newApp :: repeat newApp (length earlier) ++ apps)
    (Hs : map normalize
            (fuzzy_filter "" (newSite :: repeat newSite (length earlier) ++ sites)
                          defaultUrl)
          = newSite :: repeat newSite (length earlier) ++ sites) :
  (exists shown,
     length shown = length earlier /\
     fst (feed (searchProjects Fulfilled) (earlier ++ [""])
               {| cell := projects; trace := calls |})
     = Normal (shown ++
               [repeat createProjectChoice (S (length earlier)) ++
                map (fun p => {| c_name := displayName p; c_title := displayName p;
                                 c_value := Some (projectId p) |}) projects])) /\
  (exists shown rest,
     length shown = length earlier /\
     fst (feed (searchApps Fulfilled) (earlier ++ [""]) {| cell := apps; trace := calls |})
     = Normal (shown ++ [repeat createAppChoice (S (length earlier)) ++ rest]) /\
     Forall2 (fun a c => c_name c = appDisplayName a /\ c_title c = appDisplayName a /\
                         shortAppId (Some a) = Normal (c_value c)) apps rest) /\
  (exists shown rest,
     length shown = length earlier /\
     fst (feed (searchSites Fulfilled) (earlier ++ [""]) {| cell := sites; trace := calls |})
     = Normal (shown ++ [repeat createSiteChoice (S (length earlier)) ++ rest]) /\
     Forall2 (fun s c => c_name c = defaultUrl s /\ c_title c = defaultUrl s /\
                         shortSiteName (Some s) = Normal (c_value c)) sites rest) /\
  feed (@searchApps subsequence_fuzzy Fulfilled) [""; ""] {| cell := [app1]; trace := [] |}
  = (Normal [ [createAppChoice;
               {| c_name := "Shop"; c_title := "Shop"; c_value := Some "abc" |}];
              [createAppChoice; createAppChoice;
               {| c_name := "Shop"; c_title := "Shop"; c_value := Some "abc" |}] ],
     {| cell := [newApp; newApp; app1]; trace := [] |}).
Proof.
  split; [|split; [|split]].
  - destruct (feed_prepends (x := newProject) (searchProjects Fulfilled)
                searchProjects_prepends earlier {| cell := projects; trace := calls |})
      as [shown Hfeed].
    exists shown. split; [exact (feed_answers_count _ _ _ Hfeed)|].
    now rewrite (feed_snoc _ _ _ _ Hfeed (searchProjects_keeping_all _ _ Hp)).
  - destruct (feed_prepends (x := newApp) (searchApps Fulfilled)
                searchApps_prepends earlier {| cell := apps; trace := calls |})
      as [shown Hfeed].
    destruct (searchApps_keeping_all _ _ Ha) as (rest & Hrun & Hrest).
    exists shown, rest. split; [exact (feed_answers_count _ _ _ Hfeed)|].
    split; [|exact Hrest].
    now rewrite (feed_snoc _ _ _ _ Hfeed Hrun).
  - destruct (feed_prepends (x := newSite) (searchSites Fulfilled)
                searchSites_prepends earlier {| cell := sites; trace := calls |})
      as [shown Hfeed].
    destruct (searchSites_keeping_all _ _ Hs) as (rest & Hrun & Hrest).
    exists shown, rest. split; [exact (feed_answers_count _ _ _ Hfeed)|].
    split; [|exact Hrest].
    now rewrite (feed_snoc _ _ _ _ Hfeed Hrun).
  - reflexivity.
Qed.

Lemma empty_query_answer_after_earlier_queries_witness :
  (exists shown,
     length shown = 1 /\
     fst (feed (@searchProjects subsequence_fuzzy Fulfilled) ["p"; ""]
               {| cell := [p1]; trace := [] |})
     = Normal (shown ++
               [[createProjectChoice; createProjectChoice;
                 {| c_name := "P One"; c_title := "P One"; c_value := Some "p1" |}]])) /\
  (exists shown rest,
     length shown = 1 /\
     fst (feed (@searchApps subsequence_fuzzy Fulfilled) ["p"; ""]
               {| cell := [app1]; trace := [] |})
     = Normal (shown ++ [[createAppChoice; createAppChoice] ++ rest]) /\
     Forall2 (fun a c => c_name c = appDisplayName a /\ c_title c = appDisplayName a /\
                         shortAppId (Some a) = Normal (c_value c)) [app1] rest) /\
  (exists shown rest,
     length shown = 1 /\
     fst (feed (@searchSites subsequence_fuzzy Fulfilled) ["p"; ""]
               {| cell := [site1]; trace := [] |})
     = Normal (shown ++ [[createSiteChoice; createSiteChoice] ++ rest]) /\
     Forall2 (fun s c => c_name c = defaultUrl s /\ c_title c = defaultUrl s /\
                         shortSiteName (Some s) = Normal (c_value c)) [site1] rest) /\
  feed (@searchApps subsequence_fuzzy Fulfilled) [""; ""] {| cell := [app1]; trace := [] |}
  = (Normal [ [createAppChoice;
               {| c_name := "Shop"; c_title := "Shop"; c_value := Some "abc" |}];
              [createAppChoice; createAppChoice;
               {| c_name := "Shop"; c_title := "Shop"; c_value := Some "abc" |}] ],
     {| cell := [newApp; newApp; app1]; trace := [] |}).
Proof.
  exact (@empty_query_answer_after_earlier_queries subsequence_fuzzy ["p"] []
           [p1] [app1] [site1] eq_refl eq_refl eq_refl).
Defined.

(** ** The sites the site flow works on *)


